(** * Circuit breaker of the API gateway (api-gateway-v2/main.go)

    A shallow embedding of the [CircuitBreaker] type and of its methods
    [Execute], [recordFailure], [recordSuccess] and [GetState], followed by
    the properties of the state machine.  The code embedded is the complete
    listing of the gateway, not the shortened excerpt shown earlier in the
    README.  The request handlers that call the breaker, and the handler of
    the gateway without a breaker (api-gateway-v1/main.go), follow.

    The embedding is of one sequential caller.  For such a caller the mutex
    [cb.mu] is never contended, so [Lock]/[Unlock] are kept as comments that
    delimit the two critical sections of [Execute].  Everything else that
    the methods do is an effect on a system state [Sys]: the breaker's
    fields, the outside world the wrapped operation acts on (which also
    carries the clock), the number of times the wrapped operation has been
    invoked, and the lines written to the log. *)

From Stdlib Require Import ZArith List Ascii String Bool Lia DecimalString.
Import ListNotations.
Local Open Scope Z_scope.

(** ** Machine integers and time *)

Module GoInt.

(** Go's [int] on a 64-bit platform; [time.Duration] is an [int64] too. *)
Definition min_int : Z := - 2 ^ 63.
Definition max_int : Z := 2 ^ 63 - 1.

Definition in_range (x : Z) : Prop := min_int <= x <= max_int.

(** Two's-complement wrap-around of an arithmetic result. *)
Definition wrap (x : Z) : Z := (x - min_int) mod 2 ^ 64 + min_int.

(** [x++] *)
Definition incr (x : Z) : Z := wrap (x + 1).

End GoInt.

Module GoTime.

(** An instant, in nanoseconds on the clock's time line; the zero value of
    [time.Time] is the origin. *)
Definition Time : Type := Z.
Definition zeroTime : Time := 0.

(** [time.Duration]: a signed 64-bit count of nanoseconds. *)
Definition Duration : Type := Z.
Definition Second : Duration := 1000000000.

(** [t.Sub(u)]: the difference, saturated to the range of a [Duration]. *)
Definition Sub (t u : Time) : Duration :=
  Z.max GoInt.min_int (Z.min GoInt.max_int (t - u)).

End GoTime.

Import GoTime.

(** ** The data model *)

(** [type State int] with its three constants. *)
Inductive State : Type :=
| StateClosed
| StateOpen
| StateHalfOpen.

Definition State_eqb (a b : State) : bool :=
  match a, b with
  | StateClosed, StateClosed => true
  | StateOpen, StateOpen => true
  | StateHalfOpen, StateHalfOpen => true
  | _, _ => false
  end.

(** [func (s State) String() string] *)
Definition State_String (s : State) : string :=
  match s with
  | StateClosed => "CLOSED"
  | StateOpen => "OPEN"
  | StateHalfOpen => "HALF-OPEN"
  end.

(** [type CircuitBreaker struct], without the mutex. *)
Record CircuitBreaker : Type := mkCircuitBreaker {
  state : State;
  failureCount : Z;
  successCount : Z;
  lastFailureTime : Time;
  (* Configuration *)
  maxFailures : Z;
  timeout : Duration;
  halfOpenTimeout : Duration
}.

Definition set_state (v : State) (cb : CircuitBreaker) : CircuitBreaker :=
  mkCircuitBreaker v (failureCount cb) (successCount cb) (lastFailureTime cb)
    (maxFailures cb) (timeout cb) (halfOpenTimeout cb).

Definition set_failureCount (v : Z) (cb : CircuitBreaker) : CircuitBreaker :=
  mkCircuitBreaker (state cb) v (successCount cb) (lastFailureTime cb)
    (maxFailures cb) (timeout cb) (halfOpenTimeout cb).

Definition set_successCount (v : Z) (cb : CircuitBreaker) : CircuitBreaker :=
  mkCircuitBreaker (state cb) (failureCount cb) v (lastFailureTime cb)
    (maxFailures cb) (timeout cb) (halfOpenTimeout cb).

Definition set_lastFailureTime (v : Time) (cb : CircuitBreaker)
  : CircuitBreaker :=
  mkCircuitBreaker (state cb) (failureCount cb) (successCount cb) v
    (maxFailures cb) (timeout cb) (halfOpenTimeout cb).

Definition set_halfOpenTimeout (v : Duration) (cb : CircuitBreaker)
  : CircuitBreaker :=
  mkCircuitBreaker (state cb) (failureCount cb) (successCount cb)
    (lastFailureTime cb) (maxFailures cb) (timeout cb) v.

(** Two breakers with the same configuration fields. *)
Definition same_configuration (cb cb' : CircuitBreaker) : Prop :=
  maxFailures cb' = maxFailures cb /\
  timeout cb' = timeout cb /\
  halfOpenTimeout cb' = halfOpenTimeout cb.

(** What holds of the fields of a breaker between two calls of a
    sequential caller: the threshold is a positive [int], the failure count
    is below it and is 0 outside [StateClosed], the success count is 0 or 1
    and is 0 in [StateClosed]. *)
Definition consistent (cb : CircuitBreaker) : Prop :=
  1 <= maxFailures cb <= GoInt.max_int /\
  0 <= failureCount cb < maxFailures cb /\
  0 <= successCount cb <= 1 /\
  (state cb = StateClosed -> successCount cb = 0) /\
  (state cb <> StateClosed -> failureCount cb = 0).

(** [func NewCircuitBreaker() *CircuitBreaker]; the fields the literal does
    not name take their zero values. *)
Definition NewCircuitBreaker : CircuitBreaker :=
  {| state := StateClosed;
     failureCount := 0;
     successCount := 0;
     lastFailureTime := zeroTime;
     maxFailures := 3;
     timeout := 10 * Second;
     halfOpenTimeout := 5 * Second |}.

(** The lines the breaker writes with [log.Println] / [log.Printf]. *)
Inductive LogLine : Type :=
| LogToHalfOpen          (* "Circuit breaker transitioning to HALF-OPEN" *)
| LogProbeFailed         (* "Circuit breaker: Failure in HALF-OPEN, transitioning to OPEN" *)
| LogThreshold (n : Z)   (* "Circuit breaker: Failure threshold reached (%d), transitioning to OPEN" *)
| LogProbesPassed.       (* "Circuit breaker: Successes in HALF-OPEN, transitioning to CLOSED" *)

(** The message of the error with which [Execute] refuses a call. *)
Definition openMessage : string := "circuit breaker is OPEN".

(** ** Effects

    The methods run in a state monad over [Sys].  The wrapped operation
    ([fn func() error]) acts on a world of its own and returns [None] for
    [nil] or [Some e] for the error [e]; the clock is read off the world, so
    an operation that takes time moves the clock. *)

Section Breaker.

Context {World : Type} {error : Type}.
Context (now : World -> Time).
Context (Errorf : string -> error).

Record Sys : Type := mkSys {
  breaker : CircuitBreaker;
  world : World;
  invocations : nat;          (* calls of the wrapped operation so far *)
  logged : list LogLine
}.

Definition M (A : Type) : Type := Sys -> A * Sys.

Definition ret {A : Type} (a : A) : M A := fun s => (a, s).

Definition bind {A B : Type} (m : M A) (k : A -> M B) : M B :=
  fun s => let (a, s') := m s in k a s'.

Notation "x <- m ;; k" := (bind m (fun x => k))
  (at level 61, m at next level, right associativity).
Notation "m ;; k" := (bind m (fun _ => k))
  (at level 61, right associativity).

Definition exec {A : Type} (m : M A) (s : Sys) : Sys := snd (m s).
Definition eval {A : Type} (m : M A) (s : Sys) : A := fst (m s).

Definition getCB : M CircuitBreaker := fun s => (breaker s, s).

Definition modifyCB (f : CircuitBreaker -> CircuitBreaker) : M unit :=
  fun s => (tt, mkSys (f (breaker s)) (world s) (invocations s) (logged s)).

(** [time.Now()] *)
Definition timeNow : M Time := fun s => (now (world s), s).

(** [time.Since(t)] is [time.Now().Sub(t)]. *)
Definition timeSince (t : Time) : M Duration :=
  n <- timeNow ;; ret (Sub n t).

Definition logPrintln (l : LogLine) : M unit :=
  fun s => (tt, mkSys (breaker s) (world s) (invocations s) (logged s ++ [l])).

Definition Operation : Type := World -> option error * World.

(** [fn()] *)
Definition call (fn : Operation) : M (option error) :=
  fun s => let (r, w) := fn (world s) in
           (r, mkSys (breaker s) w (S (invocations s)) (logged s)).

(** ** The methods *)

(** [func (cb *CircuitBreaker) recordFailure()] *)
Definition recordFailure : M unit :=
  modifyCB (fun cb => set_failureCount (GoInt.incr (failureCount cb)) cb) ;;
  t <- timeNow ;;
  modifyCB (set_lastFailureTime t) ;;
  cb <- getCB ;;
  if State_eqb (state cb) StateHalfOpen then
    logPrintln LogProbeFailed ;;
    modifyCB (set_state StateOpen) ;;
    modifyCB (set_failureCount 0)
  else if failureCount cb >=? maxFailures cb then
    logPrintln (LogThreshold (maxFailures cb)) ;;
    modifyCB (set_state StateOpen) ;;
    modifyCB (set_failureCount 0)
  else ret tt.

(** [func (cb *CircuitBreaker) recordSuccess()] *)
Definition recordSuccess : M unit :=
  modifyCB (set_failureCount 0) ;;
  cb <- getCB ;;
  if State_eqb (state cb) StateHalfOpen then
    modifyCB (fun cb => set_successCount (GoInt.incr (successCount cb)) cb) ;;
    cb <- getCB ;;
    if successCount cb >=? 2 then
      logPrintln LogProbesPassed ;;
      modifyCB (set_state StateClosed) ;;
      modifyCB (set_successCount 0)
    else ret tt
  else ret tt.

(** The first critical section of [Execute], from [cb.mu.Lock()] to the
    first [cb.mu.Unlock()] that is reached.  The result is [None] when the
    call returns from inside the [else] branch, and otherwise the value of
    the local [currentState]. *)
Definition Execute_enter : M (option State) :=
  (* cb.mu.Lock() *)
  cb <- getCB ;;
  proceed <-
    (if State_eqb (state cb) StateOpen then
       elapsed <- timeSince (lastFailureTime cb) ;;
       if elapsed >? timeout cb then
         logPrintln LogToHalfOpen ;;
         modifyCB (set_state StateHalfOpen) ;;
         modifyCB (set_successCount 0) ;;
         ret true
       else
         (* cb.mu.Unlock(); return fmt.Errorf(...) *)
         ret false
     else ret true) ;;
  if proceed : bool then
    cb <- getCB ;;
    (* currentState := cb.state; cb.mu.Unlock() *)
    ret (Some (state cb))
  else ret None.

(** The second critical section of [Execute], from the second
    [cb.mu.Lock()] to the deferred [cb.mu.Unlock()]: [err] is what [fn()]
    returned. *)
Definition Execute_record (err : option error) : M (option error) :=
  (* cb.mu.Lock(); defer cb.mu.Unlock() *)
  match err with
  | Some e => recordFailure ;; ret (Some e)
  | None => recordSuccess ;; ret None
  end.

(** [Execute] after the first critical section, from the test of
    [currentState] on. *)
Definition Execute_finish (currentState : State) (fn : Operation)
  : M (option error) :=
  if State_eqb currentState StateOpen then
    ret (Some (Errorf openMessage))
  else
    err <- call fn ;;
    Execute_record err.

(** [func (cb *CircuitBreaker) Execute(fn func() error) error] *)
Definition Execute (fn : Operation) : M (option error) :=
  entered <- Execute_enter ;;
  match entered with
  | None => ret (Some (Errorf openMessage))
  | Some currentState => Execute_finish currentState fn
  end.

(** [func (cb *CircuitBreaker) GetState() string] *)
Definition GetState : M string :=
  (* cb.mu.Lock(); defer cb.mu.Unlock() *)
  cb <- getCB ;;
  ret (State_String (state cb)).

(** ** Runs *)

(** The calls [Execute(fn)] for the operations of a list, one after the
    other: what each call returned and the system it left behind. *)
Fixpoint history (fns : list Operation) (s : Sys) : list (option error * Sys) :=
  match fns with
  | [] => []
  | fn :: rest =>
      let r := Execute fn s in
      r :: history rest (snd r)
  end.

(** The system after the last call of a run. *)
Fixpoint after (fns : list Operation) (s : Sys) : Sys :=
  match fns with
  | [] => s
  | fn :: rest => after rest (exec (Execute fn) s)
  end.

(** A call of a run returned an error. *)
Definition failed (r : option error * Sys) : Prop := fst r <> None.

(** A call of a run left the breaker in [StateClosed]. *)
Definition left_closed (r : option error * Sys) : Prop :=
  state (breaker (snd r)) = StateClosed.

(** Something other than the breaker acts on the world between two calls
    (time passes, the downstream service goes down or comes back). *)
Definition elsewhere (f : World -> World) (s : Sys) : Sys :=
  mkSys (breaker s) (f (world s)) (invocations s) (logged s).

End Breaker.

Arguments Sys : clear implicits.
Arguments M : clear implicits.
Arguments Operation : clear implicits.

(** ** A concrete setting

    The world is the clock alone, errors are their messages, and the
    downstream service is a switch: a call takes a fixed time and fails or
    succeeds.  The scenarios below follow the gateway's start-up
    configuration (three failures, ten seconds). *)

Module Demo.

Definition World : Type := Time.
Definition error : Type := string.

Definition now (w : World) : Time := w.
Definition Errorf (msg : string) : error := msg.

(** A call that fails after [d] nanoseconds (the HTTP client's time-out is
    two seconds). *)
Definition failing (d : Duration) : Operation World error :=
  fun w => (Some "recommendations service returned status 500"%string, w + d).

(** A call that succeeds after [d] nanoseconds. *)
Definition succeeding (d : Duration) : Operation World error :=
  fun w => (None, w + d).

Definition sleep (d : Duration) : Sys World -> Sys World :=
  elsewhere (fun w => w + d).

(** The gateway at start-up, at instant [t]. *)
Definition boot (t : Time) : Sys World :=
  mkSys NewCircuitBreaker t 0 [].

Definition Execute := Execute (World := World) (error := error) now Errorf.
Definition after := after (World := World) (error := error) now Errorf.
Definition history := history (World := World) (error := error) now Errorf.

(** Three failed calls of one second each: the breaker has tripped. *)
Definition tripped : Sys World :=
  after [failing Second; failing Second; failing Second] (boot 1000).

(** Five seconds later the cool-down is still running. *)
Definition cooling : Sys World := sleep (5 * Second) tripped.

(** Eleven seconds after the trip the cool-down is over. *)
Definition cooled : Sys World := sleep (11 * Second) tripped.

(** One probe has succeeded. *)
Definition probing : Sys World :=
  exec (Execute (succeeding Second)) cooled.

(** The next probe fails. *)
Definition reopened : Sys World :=
  exec (Execute (failing Second)) probing.

End Demo.

(** ** The gateway: the callers of the breaker

    [getProductDetails], [getRecommendations], [getFallbackRecommendations],
    [productDetailsHandler] and [circuitStatusHandler].  What the handlers
    get from the network and from the libraries that talk to it is a
    parameter: the HTTP client, the JSON decoder and the formatting of a
    time.
    Each of them may change the network's state [Net], which carries the
    clock.  The JSON encoder is kept as the value it is given to encode. *)

(** [strings.TrimPrefix] *)
Definition TrimPrefix (s prefix : string) : string :=
  if String.prefix prefix s
  then substring (String.length prefix)
         (String.length s - String.length prefix) s
  else s.

(** [strings.TrimSpace] on a string of UTF-8 bytes: the leading and
    trailing white-space runes are removed, white space being what
    [unicode.IsSpace] says: the bytes 9 to 13 and 32, and the encodings of
    U+0085, U+00A0, U+1680, U+2000 to U+200A, U+2028, U+2029, U+202F,
    U+205F and U+3000. *)
Definition byte (c : ascii) : Z := Z.of_nat (nat_of_ascii c).

Definition isSpace1 (b0 : Z) : bool :=
  ((9 <=? b0) && (b0 <=? 13)) || (b0 =? 32).

Definition isSpace2 (b0 b1 : Z) : bool :=
  (b0 =? 194) && ((b1 =? 133) || (b1 =? 160)).

Definition isSpace3 (b0 b1 b2 : Z) : bool :=
  ((b0 =? 225) && (b1 =? 154) && (b2 =? 128)) ||
  ((b0 =? 226) && (b1 =? 128) &&
   (((128 <=? b2) && (b2 <=? 138)) ||
    (b2 =? 168) || (b2 =? 169) || (b2 =? 175))) ||
  ((b0 =? 226) && (b1 =? 129) && (b2 =? 159)) ||
  ((b0 =? 227) && (b1 =? 128) && (b2 =? 128)).

(** The width in bytes of the first rune when it is white space, else 0. *)
Definition leadingSpace (s : string) : nat :=
  match s with
  | String c0 (String c1 (String c2 _)) =>
      if isSpace1 (byte c0) then 1
      else if isSpace2 (byte c0) (byte c1) then 2
      else if isSpace3 (byte c0) (byte c1) (byte c2) then 3
      else 0
  | String c0 (String c1 EmptyString) =>
      if isSpace1 (byte c0) then 1
      else if isSpace2 (byte c0) (byte c1) then 2
      else 0
  | String c0 EmptyString => if isSpace1 (byte c0) then 1 else 0
  | EmptyString => 0
  end%nat.

(** The same for the last rune, on the string read backwards. *)
Definition trailingSpace (reversed : string) : nat :=
  match reversed with
  | String c0 (String c1 (String c2 _)) =>
      if isSpace1 (byte c0) then 1
      else if isSpace2 (byte c1) (byte c0) then 2
      else if isSpace3 (byte c2) (byte c1) (byte c0) then 3
      else 0
  | String c0 (String c1 EmptyString) =>
      if isSpace1 (byte c0) then 1
      else if isSpace2 (byte c1) (byte c0) then 2
      else 0
  | String c0 EmptyString => if isSpace1 (byte c0) then 1 else 0
  | EmptyString => 0
  end%nat.

Fixpoint dropBytes (n : nat) (s : string) : string :=
  match n, s with
  | S k, String _ rest => dropBytes k rest
  | _, _ => s
  end.

(** Runes are removed from the front as long as [width] finds one; [fuel]
    bounds the number of runes by the number of bytes. *)
Fixpoint trimFront (width : string -> nat) (fuel : nat) (s : string)
  : string :=
  match fuel with
  | O => s
  | S k =>
      match width s with
      | O => s
      | w => trimFront width k (dropBytes w s)
      end
  end.

Definition reverse (s : string) : string :=
  string_of_list_ascii (rev (list_ascii_of_string s)).

Definition TrimSpace (s : string) : string :=
  let left := trimFront leadingSpace (String.length s) s in
  reverse
    (trimFront trailingSpace (String.length left) (reverse left)).

(** The verb [%d] of [fmt] for an [int]. *)
Definition itoa (z : Z) : string := NilZero.string_of_int (Z.to_int z).

Definition productServiceURL : string := "http://product-service:8081".
Definition recommendationsServiceURL : string :=
  "http://recommendations-service:8082".

Definition StatusOK : Z := 200.
Definition StatusBadRequest : Z := 400.
Definition StatusInternalServerError : Z := 500.

Section Gateway.

Context {Net : Type} {error : Type} {float64 : Type} {Body : Type}.
Context (now : Net -> Time).
Context (Errorf : string -> error).

(** [type Product struct] *)
Record Product : Type := mkProduct {
  ID : string;
  Name : string;
  Price : float64;
  Description : string
}.

(** A slice of products: [None] is the [nil] slice, which the JSON encoder
    writes as [null]; [Some []] is the empty slice [[]Product{}]. *)
Definition Products : Type := option (list Product).

(** [type ProductDetails struct] *)
Record ProductDetails : Type := mkProductDetails {
  DetailsProduct : Product;
  Recommendations : Products;
  Timestamp : string;
  DegradedMode : bool
}.

(** What [httpClient.Get] returns when it returns no error. *)
Record Response : Type := mkResponse {
  StatusCode : Z;
  RespBody : Body
}.

(** [httpClient.Get(url)] *)
Context (httpGet : string -> Net -> (Response + error) * Net).
(** [resp.Body.Close()] *)
Context (closeBody : Response -> Net -> Net).
(** [json.NewDecoder(resp.Body).Decode(&product)] *)
Context (decodeProduct : Response -> Net -> (Product + error) * Net).
(** [json.NewDecoder(resp.Body).Decode(&recommendations)] *)
Context (decodeProducts : Response -> Net -> (Products + error) * Net).
(** [t.Format(time.RFC3339)] *)
Context (formatRFC3339 : Time -> string).

(** [func getProductDetails(productID string)], returning a [*Product]
    and an [error]. *)
Definition getProductDetails (productID : string) (n : Net)
  : (Product + error) * Net :=
  let (got, n1) :=
    httpGet (productServiceURL ++ "/product/" ++ productID) n in
  match got with
  | inr err => (inr err, n1)
  | inl resp =>
      (* defer resp.Body.Close() *)
      if negb (StatusCode resp =? StatusOK) then
        (inr (Errorf ("product service returned status " ++
                      itoa (StatusCode resp))),
         closeBody resp n1)
      else
        let (decoded, n2) := decodeProduct resp n1 in
        match decoded with
        | inr err => (inr err, closeBody resp n2)
        | inl product => (inl product, closeBody resp n2)
        end
  end.

(** [func getRecommendations(productID string) ([]Product, error)] *)
Definition getRecommendations (productID : string) (n : Net)
  : (Products + error) * Net :=
  let (got, n1) :=
    httpGet (recommendationsServiceURL ++ "/recommendations/" ++ productID)
      n in
  match got with
  | inr err => (inr err, n1)
  | inl resp =>
      (* defer resp.Body.Close() *)
      if negb (StatusCode resp =? StatusOK) then
        (inr (Errorf ("recommendations service returned status " ++
                      itoa (StatusCode resp))),
         closeBody resp n1)
      else
        let (decoded, n2) := decodeProducts resp n1 in
        match decoded with
        | inr err => (inr err, closeBody resp n2)
        | inl recommendations => (inl recommendations, closeBody resp n2)
        end
  end.

(** [func getFallbackRecommendations() []Product] *)
Definition getFallbackRecommendations : Products := Some [].

(** The lines the handlers write with [log.Printf]. *)
Inductive GatewayLine : Type :=
| LogProductError (err : error)
    (* "Error getting product: %v" *)
| LogFallback (circuit : string) (err : error)
    (* "Circuit breaker %s or recommendation call failed: %v" *)
| LogCompleted (duration : Duration) (degraded : bool) (circuit : string).
    (* "Request completed in %v (degraded: %v, circuit: %s)" *)

(** The world the breaker's operation acts on, for the gateway: the
    network, the handler's local variable [recommendations], which the
    closure given to [Execute] assigns, and the handlers' log lines (the
    breaker's own lines stay in [logged]). *)
Record GatewayWorld : Type := mkGatewayWorld {
  net : Net;
  recommendationsVar : Products;
  gatewayLog : list GatewayLine
}.

Definition gatewayNow (gw : GatewayWorld) : Time := now (net gw).

(** What a handler has written to its [http.ResponseWriter]: the headers
    it set, the status of the response, and the body. *)
Inductive Payload : Type :=
| Text (body : string)
| DetailsJSON (details : ProductDetails)
| CircuitJSON (fields : list (string * string)).

Record Reply : Type := mkReply {
  Status : Z;
  Header : list (string * string);
  ReplyBody : Payload
}.

(** [http.Error(w, msg, code)] *)
Definition http_Error (msg : string) (code : Z) : Reply :=
  {| Status := code;
     Header := [("Content-Type", "text/plain; charset=utf-8");
                ("X-Content-Type-Options", "nosniff")]%string;
     ReplyBody := Text (msg ++ String "010"%char EmptyString) |}.

(** [w.Header().Set("Content-Type", "application/json")] followed by
    [json.NewEncoder(w).Encode(v)]: the first write sends status 200. *)
Definition json_reply (v : Payload) : Reply :=
  {| Status := StatusOK;
     Header := [("Content-Type", "application/json")]%string;
     ReplyBody := v |}.

Notation "x <- m ;; k" := (bind m (fun x => k))
  (at level 61, m at next level, right associativity).
Notation "m ;; k" := (bind m (fun _ => k))
  (at level 61, right associativity).

(** A call out to the network from a handler. *)
Definition onNet {A : Type} (f : Net -> A * Net) : M GatewayWorld A :=
  fun s =>
    let (a, n) := f (net (world s)) in
    (a, mkSys (breaker s)
          (mkGatewayWorld n (recommendationsVar (world s))
             (gatewayLog (world s)))
          (invocations s) (logged s)).

(** An assignment to the handler's variable [recommendations]. *)
Definition setRecommendations (v : Products) : M GatewayWorld unit :=
  fun s =>
    (tt, mkSys (breaker s)
           (mkGatewayWorld (net (world s)) v (gatewayLog (world s)))
           (invocations s) (logged s)).

Definition getRecommendationsVar : M GatewayWorld Products :=
  fun s => (recommendationsVar (world s), s).

Definition logPrintf (l : GatewayLine) : M GatewayWorld unit :=
  fun s =>
    (tt, mkSys (breaker s)
           (mkGatewayWorld (net (world s)) (recommendationsVar (world s))
              (gatewayLog (world s) ++ [l]))
           (invocations s) (logged s)).

(** The closure that [productDetailsHandler] gives to [Execute]. *)
Definition recommendationsCall (id : string)
  : Operation GatewayWorld error :=
  fun gw =>
    let (got, n) := getRecommendations id (net gw) in
    match got with
    | inr err => (Some err, mkGatewayWorld n (recommendationsVar gw)
                              (gatewayLog gw))
    | inl recs => (None, mkGatewayWorld n recs (gatewayLog gw))
    end.

(** [func productDetailsHandler(w http.ResponseWriter, r *http.Request)];
    [urlPath] is [r.URL.Path]. *)
Definition productDetailsHandler (urlPath : string)
  : M GatewayWorld Reply :=
  startTime <- timeNow gatewayNow ;;
  (* Extract ID from path *)
  let path := TrimPrefix urlPath "/product-details/" in
  let id := TrimSpace path in
  if String.eqb id "" then
    ret (http_Error "Product ID required" StatusBadRequest)
  else
    (* Get product details from product service *)
    got <- onNet (getProductDetails id) ;;
    match got with
    | inr err =>
        logPrintf (LogProductError err) ;;
        ret (http_Error "Failed to get product details"
               StatusInternalServerError)
    | inl product =>
        (* Get recommendations through circuit breaker *)
        setRecommendations None ;;
        (* degradedMode := false *)
        err <- Execute gatewayNow Errorf (recommendationsCall id) ;;
        degradedMode <-
          match err with
          | Some e =>
              (* Circuit is OPEN or call failed - use fallback *)
              circuit <- GetState ;;
              logPrintf (LogFallback circuit e) ;;
              setRecommendations getFallbackRecommendations ;;
              ret true
          | None => ret false
          end ;;
        (* Build response *)
        recommendations <- getRecommendationsVar ;;
        t <- timeNow gatewayNow ;;
        let response :=
          mkProductDetails product recommendations (formatRFC3339 t)
            degradedMode in
        duration <- timeSince gatewayNow startTime ;;
        circuit <- GetState ;;
        logPrintf (LogCompleted duration degradedMode circuit) ;;
        ret (json_reply (DetailsJSON response))
    end.

(** [func circuitStatusHandler(w http.ResponseWriter, r *http.Request)] *)
Definition circuitStatusHandler : M GatewayWorld Reply :=
  circuit <- GetState ;;
  let status := [("circuit_state"%string, circuit)] in
  ret (json_reply (CircuitJSON status)).

End Gateway.

Arguments Product : clear implicits.
Arguments Products : clear implicits.
Arguments ProductDetails : clear implicits.
Arguments Response : clear implicits.
Arguments GatewayLine : clear implicits.
Arguments GatewayWorld : clear implicits.
Arguments Payload : clear implicits.
Arguments Reply : clear implicits.

(** ** The gateway without the breaker (api-gateway-v1/main.go)

    [getProductDetails] is the same function as in the gateway above and is
    reused; [getRecommendations] and [productDetailsHandler] differ. *)

Module V1.

Section Gateway.

Context {Net : Type} {error : Type} {float64 : Type} {Body : Type}.
Context (now : Net -> Time).
Context (Errorf : string -> error).
Context (httpGet : string -> Net -> (Response Body + error) * Net).
Context (closeBody : Response Body -> Net -> Net).
Context (decodeProduct :
           Response Body -> Net -> (Product float64 + error) * Net).
Context (decodeProducts :
           Response Body -> Net -> (Products float64 + error) * Net).
(** [io.ReadAll(resp.Body)], as the string of the bytes read; the handler
    drops the error. *)
Context (readAll : Response Body -> Net -> string * Net).
Context (formatRFC3339 : Time -> string).

(** [type ProductDetails struct] *)
Record ProductDetails : Type := mkProductDetails {
  DetailsProduct : Product float64;
  Recommendations : Products float64;
  Timestamp : string
}.

(** [func getRecommendations(productID string) ([]Product, error)] *)
Definition getRecommendations (productID : string) (n : Net)
  : (Products float64 + error) * Net :=
  let (got, n1) :=
    httpGet (recommendationsServiceURL ++ "/recommendations/" ++ productID)
      n in
  match got with
  | inr err => (inr err, n1)
  | inl resp =>
      (* defer resp.Body.Close() *)
      if negb (StatusCode resp =? StatusOK) then
        let (body, n2) := readAll resp n1 in
        (inr (Errorf ("recommendations service returned status " ++
                      itoa (StatusCode resp) ++ ": " ++ body)),
         closeBody resp n2)
      else
        let (decoded, n2) := decodeProducts resp n1 in
        match decoded with
        | inr err => (inr err, closeBody resp n2)
        | inl recommendations => (inl recommendations, closeBody resp n2)
        end
  end.

(** The lines the handler writes with [log.Printf]. *)
Inductive LogLine : Type :=
| LogProductError (err : error)
    (* "Error getting product: %v" *)
| LogRecommendationsError (err : error)
    (* "Error getting recommendations: %v" *)
| LogCompleted (duration : Duration).
    (* "Request completed in %v" *)

(** What the handler acts on: the network and the log. *)
Record World : Type := mkWorld {
  net : Net;
  log : list LogLine
}.

Inductive Payload : Type :=
| Text (body : string)
| DetailsJSON (details : ProductDetails).

Record Reply : Type := mkReply {
  Status : Z;
  Header : list (string * string);
  ReplyBody : Payload
}.

(** [http.Error(w, msg, code)] *)
Definition http_Error (msg : string) (code : Z) : Reply :=
  {| Status := code;
     Header := [("Content-Type", "text/plain; charset=utf-8");
                ("X-Content-Type-Options", "nosniff")]%string;
     ReplyBody := Text (msg ++ String "010"%char EmptyString) |}.

(** [w.Header().Set("Content-Type", "application/json")] followed by
    [json.NewEncoder(w).Encode(response)]. *)
Definition json_reply (v : Payload) : Reply :=
  {| Status := StatusOK;
     Header := [("Content-Type", "application/json")]%string;
     ReplyBody := v |}.

(** [func productDetailsHandler(w http.ResponseWriter, r *http.Request)];
    [urlPath] is [r.URL.Path]. *)
Definition productDetailsHandler (urlPath : string) (w : World)
  : Reply * World :=
  let startTime := now (net w) in
  (* Extract ID from path *)
  let path := TrimPrefix urlPath "/product-details/" in
  let id := TrimSpace path in
  if String.eqb id "" then
    (http_Error "Product ID required" StatusBadRequest, w)
  else
    (* Get product details from product service *)
    let (got, n1) :=
      getProductDetails Errorf httpGet closeBody decodeProduct id (net w) in
    match got with
    | inr err =>
        (http_Error "Failed to get product details"
           StatusInternalServerError,
         mkWorld n1 (log w ++ [LogProductError err]))
    | inl product =>
        (* Get recommendations *)
        let (got', n2) := getRecommendations id n1 in
        match got' with
        | inr err =>
            (* Without circuit breaker, we fail the entire request *)
            (http_Error "Failed to get recommendations"
               StatusInternalServerError,
             mkWorld n2 (log w ++ [LogRecommendationsError err]))
        | inl recommendations =>
            (* Build response *)
            let response :=
              mkProductDetails product recommendations
                (formatRFC3339 (now n2)) in
            let duration := Sub (now n2) startTime in
            (json_reply (DetailsJSON response),
             mkWorld n2 (log w ++ [LogCompleted duration]))
        end
    end.

End Gateway.

Arguments ProductDetails : clear implicits.
Arguments LogLine : clear implicits.
Arguments World : clear implicits.
Arguments Payload : clear implicits.
Arguments Reply : clear implicits.

End V1.

(** ** A concrete gateway

    A network whose two services can be up or down, with a clock and the
    list of the URLs requested so far.  A request to a service that is down
    runs into the client's two-second time-out. *)

Module GatewayDemo.

Record Net : Type := mkNet {
  clock : Time;
  productUp : bool;
  recommendationsUp : bool;
  requested : list string
}.

Definition error : Type := string.
Definition float64 : Type := Z.          (* a price, in cents *)
Definition Body : Type := string.

Definition now (n : Net) : Time := clock n.
Definition Errorf (msg : string) : error := msg.

Definition laptop : Product float64 :=
  mkProduct "1" "Laptop" 99999 "High-performance laptop".
Definition mouse : Product float64 :=
  mkProduct "2" "Mouse" 2999 "Wireless mouse".

Definition httpGet (url : string) (n : Net)
  : (Response Body + error) * Net :=
  let up :=
    if String.prefix productServiceURL url then productUp n
    else recommendationsUp n in
  if up then
    (inl (mkResponse StatusOK url),
     mkNet (clock n + 5000000) (productUp n) (recommendationsUp n)
       (requested n ++ [url]))
  else
    (inr "context deadline exceeded"%string,
     mkNet (clock n + 2 * Second) (productUp n) (recommendationsUp n)
       (requested n ++ [url])).

Definition closeBody (resp : Response Body) (n : Net) : Net := n.

Definition decodeProduct (resp : Response Body) (n : Net)
  : (Product float64 + error) * Net := (inl laptop, n).

Definition decodeProducts (resp : Response Body) (n : Net)
  : (Products float64 + error) * Net := (inl (Some [mouse]), n).

(** The instant as a number of nanoseconds, in place of an RFC 3339 date. *)
Definition formatRFC3339 (t : Time) : string := itoa t.

Definition World : Type := GatewayWorld Net error float64.

Definition handler : string -> M World (Reply float64) :=
  productDetailsHandler now Errorf httpGet closeBody decodeProduct
    decodeProducts formatRFC3339.

(** The gateway at start-up; [up] tells whether the recommendations
    service is up. *)
Definition boot (up : bool) : Sys World :=
  mkSys NewCircuitBreaker
    (mkGatewayWorld (mkNet 1000 true up []) None []) 0 [].

(** The gateway after three requests during which the recommendations
    service was down. *)
Definition tripped : Sys World :=
  exec (handler "/product-details/1")
    (exec (handler "/product-details/1")
       (exec (handler "/product-details/1") (boot false))).

(** The gateway at start-up when the product service is down. *)
Definition blind : Sys World :=
  mkSys NewCircuitBreaker
    (mkGatewayWorld (mkNet 1000 false true []) None []) 0 [].

(** The gateway without the breaker. *)
Definition readAll (resp : Response Body) (n : Net) : string * Net :=
  (RespBody resp, n).

Definition handlerV1
  : string -> V1.World Net error -> V1.Reply float64 * V1.World Net error :=
  V1.productDetailsHandler now Errorf httpGet closeBody decodeProduct
    decodeProducts readAll formatRFC3339.

Definition bootV1 (up : bool) : V1.World Net error :=
  V1.mkWorld (mkNet 1000 true up []) [].

End GatewayDemo.

(** * Properties *)

(** ** Integers, time, states *)

Lemma wrap_id (x : Z) : GoInt.in_range x -> GoInt.wrap x = x.
Proof.
  unfold GoInt.in_range, GoInt.wrap, GoInt.min_int, GoInt.max_int.
  intros Hx. rewrite Z.mod_small; lia.
Qed.

Lemma wrap_in_range (x : Z) : GoInt.in_range (GoInt.wrap x).
Proof.
  unfold GoInt.in_range, GoInt.wrap, GoInt.min_int, GoInt.max_int.
  pose proof (Z.mod_pos_bound (x - - 2 ^ 63) (2 ^ 64) ltac:(lia)). lia.
Qed.

(** Below the largest [int], [x++] adds one. *)
Lemma incr_small (x : Z) :
  GoInt.min_int <= x < GoInt.max_int -> GoInt.incr x = x + 1.
Proof.
  intros Hx. unfold GoInt.incr. apply wrap_id.
  unfold GoInt.in_range. lia.
Qed.

Lemma Sub_in_range (t u : Time) : GoInt.in_range (Sub t u).
Proof. unfold Sub, GoInt.in_range, GoInt.min_int, GoInt.max_int. lia. Qed.

Lemma Sub_exact (t u : Time) : GoInt.in_range (t - u) -> Sub t u = t - u.
Proof. unfold Sub, GoInt.in_range. lia. Qed.

Lemma State_eqb_spec (a b : State) : reflect (a = b) (State_eqb a b).
Proof. destruct a, b; constructor; congruence. Qed.

Lemma State_String_inj (a b : State) :
  State_String a = State_String b -> a = b.
Proof. destruct a, b; simpl; intros H; congruence. Qed.

Section BreakerFacts.

Context {World : Type} {error : Type}.
Context (now : World -> Time).
Context (Errorf : string -> error).

Implicit Types (s : Sys World) (fn : Operation World error).

(** ** What one recorded outcome does to the breaker *)

(** Neither bookkeeping method touches the world or the invocation count. *)
Lemma recordFailure_frame s :
  world (exec (recordFailure now) s) = world s /\
  invocations (exec (recordFailure now) s) = invocations s.
Proof.
  destruct s as [[st fc sc lt mf tmo hto] w n l].
  unfold exec, recordFailure, bind, modifyCB, timeNow, getCB; simpl.
  destruct st; simpl; try (split; reflexivity).
  all: destruct (GoInt.incr fc >=? mf); simpl; split; reflexivity.
Qed.

Lemma recordSuccess_frame s :
  world (exec recordSuccess s) = world s /\
  invocations (exec recordSuccess s) = invocations s.
Proof.
  destruct s as [[st fc sc lt mf tmo hto] w n l].
  unfold exec, recordSuccess, bind, modifyCB, getCB; simpl.
  destruct st; simpl; try (split; reflexivity).
  destruct (GoInt.incr sc >=? 2); simpl; split; reflexivity.
Qed.

(** A failure recorded in [StateHalfOpen] reopens the breaker, whatever the
    counters and the threshold are. *)
Lemma recordFailure_HalfOpen s :
  state (breaker s) = StateHalfOpen ->
  breaker (exec (recordFailure now) s) =
    set_failureCount 0
      (set_state StateOpen
         (set_lastFailureTime (now (world s)) (breaker s))).
Proof.
  destruct s as [[st fc sc lt mf tmo hto] w n l]; simpl.
  intros ->. reflexivity.
Qed.

(** A failure recorded in another state that does not reach the threshold
    is only counted. *)
Lemma recordFailure_below s :
  state (breaker s) <> StateHalfOpen ->
  GoInt.incr (failureCount (breaker s)) < maxFailures (breaker s) ->
  breaker (exec (recordFailure now) s) =
    set_lastFailureTime (now (world s))
      (set_failureCount (GoInt.incr (failureCount (breaker s))) (breaker s)).
Proof.
  destruct s as [[st fc sc lt mf tmo hto] w n l]; simpl.
  intros Hst Hlt.
  unfold exec, recordFailure, bind, modifyCB, timeNow, getCB; simpl.
  destruct st; try congruence; simpl.
  all: destruct (Z.geb_spec (GoInt.incr fc) mf); [lia | reflexivity].
Qed.

(** A failure recorded in another state that reaches the threshold opens
    the breaker and spends the count. *)
Lemma recordFailure_trip s :
  state (breaker s) <> StateHalfOpen ->
  maxFailures (breaker s) <= GoInt.incr (failureCount (breaker s)) ->
  breaker (exec (recordFailure now) s) =
    set_failureCount 0
      (set_state StateOpen
         (set_lastFailureTime (now (world s)) (breaker s))).
Proof.
  destruct s as [[st fc sc lt mf tmo hto] w n l]; simpl.
  intros Hst Hge.
  unfold exec, recordFailure, bind, modifyCB, timeNow, getCB; simpl.
  destruct st; try congruence; simpl.
  all: destruct (Z.geb_spec (GoInt.incr fc) mf); [reflexivity | lia].
Qed.

(** A success recorded outside [StateHalfOpen] only clears the failure
    count. *)
Lemma recordSuccess_other s :
  state (breaker s) <> StateHalfOpen ->
  exec recordSuccess s =
    mkSys (set_failureCount 0 (breaker s)) (world s) (invocations s)
      (logged s).
Proof.
  destruct s as [[st fc sc lt mf tmo hto] w n l]; simpl.
  intros Hst. destruct st; try congruence; reflexivity.
Qed.

Lemma recordSuccess_HalfOpen_below s :
  state (breaker s) = StateHalfOpen ->
  GoInt.incr (successCount (breaker s)) < 2 ->
  exec recordSuccess s =
    mkSys (set_successCount (GoInt.incr (successCount (breaker s)))
             (set_failureCount 0 (breaker s)))
      (world s) (invocations s) (logged s).
Proof.
  destruct s as [[st fc sc lt mf tmo hto] w n l]; simpl.
  intros -> Hlt.
  unfold exec, recordSuccess, bind, modifyCB, getCB; simpl.
  destruct (Z.geb_spec (GoInt.incr sc) 2); [lia | reflexivity].
Qed.

Lemma recordSuccess_HalfOpen_close s :
  state (breaker s) = StateHalfOpen ->
  2 <= GoInt.incr (successCount (breaker s)) ->
  exec recordSuccess s =
    mkSys (set_successCount 0
             (set_state StateClosed (set_failureCount 0 (breaker s))))
      (world s) (invocations s) (logged s ++ [LogProbesPassed]).
Proof.
  destruct s as [[st fc sc lt mf tmo hto] w n l]; simpl.
  intros -> Hge.
  unfold exec, recordSuccess, bind, modifyCB, getCB; simpl.
  destruct (Z.geb_spec (GoInt.incr sc) 2); [reflexivity | lia].
Qed.

(** ** The phases of [Execute] *)

Lemma call_eq fn s :
  call fn s =
    (fst (fn (world s)),
     mkSys (breaker s) (snd (fn (world s))) (S (invocations s)) (logged s)).
Proof. unfold call. destruct (fn (world s)); reflexivity. Qed.

(** Outside [StateOpen] the first critical section changes nothing and
    captures the state it found. *)
Lemma Execute_enter_pass s :
  state (breaker s) <> StateOpen ->
  Execute_enter now s = (Some (state (breaker s)), s).
Proof.
  destruct s as [[st fc sc lt mf tmo hto] w n l]; simpl.
  intros Hst. destruct st; try congruence; reflexivity.
Qed.

(** In [StateOpen], up to and including the cool-down, the call returns
    from inside the first critical section. *)
Lemma Execute_enter_refuse s :
  state (breaker s) = StateOpen ->
  Sub (now (world s)) (lastFailureTime (breaker s)) <= timeout (breaker s) ->
  Execute_enter now s = (None, s).
Proof.
  destruct s as [[st fc sc lt mf tmo hto] w n l]; simpl.
  intros -> Hle.
  unfold Execute_enter, bind, getCB, timeSince, timeNow, ret, bind; simpl.
  destruct (Z.gtb_spec (Sub (now w) lt) tmo); [lia | reflexivity].
Qed.

(** In [StateOpen], past the cool-down, the first critical section moves
    the breaker to [StateHalfOpen] and captures that state. *)
Lemma Execute_enter_probe s :
  state (breaker s) = StateOpen ->
  timeout (breaker s) < Sub (now (world s)) (lastFailureTime (breaker s)) ->
  Execute_enter now s =
    (Some StateHalfOpen,
     mkSys (set_successCount 0 (set_state StateHalfOpen (breaker s)))
       (world s) (invocations s) (logged s ++ [LogToHalfOpen])).
Proof.
  destruct s as [[st fc sc lt mf tmo hto] w n l]; simpl.
  intros -> Hlt.
  unfold Execute_enter, bind, getCB, timeSince, timeNow, ret, bind; simpl.
  destruct (Z.gtb_spec (Sub (now w) lt) tmo); [reflexivity | lia].
Qed.

(** The three ways through the first critical section. *)
Lemma Execute_enter_cases s :
  (state (breaker s) <> StateOpen /\
   Execute_enter now s = (Some (state (breaker s)), s)) \/
  (state (breaker s) = StateOpen /\
   Sub (now (world s)) (lastFailureTime (breaker s)) <= timeout (breaker s) /\
   Execute_enter now s = (None, s)) \/
  (state (breaker s) = StateOpen /\
   timeout (breaker s) < Sub (now (world s)) (lastFailureTime (breaker s)) /\
   Execute_enter now s =
     (Some StateHalfOpen,
      mkSys (set_successCount 0 (set_state StateHalfOpen (breaker s)))
        (world s) (invocations s) (logged s ++ [LogToHalfOpen]))).
Proof.
  destruct (State_eqb_spec (state (breaker s)) StateOpen) as [Hopen | Hother].
  - destruct (Z_le_gt_dec
                (Sub (now (world s)) (lastFailureTime (breaker s)))
                (timeout (breaker s))) as [Hle | Hgt].
    + right; left. auto using Execute_enter_refuse.
    + right; right. split; [assumption | split; [lia |]].
      apply Execute_enter_probe; [assumption | lia].
  - left. auto using Execute_enter_pass.
Qed.

(** [Execute] in terms of its phases, when the first one lets the call
    through with a captured state other than [StateOpen]. *)
Lemma Execute_forward fn s st s1 :
  Execute_enter now s = (Some st, s1) ->
  st <> StateOpen ->
  Execute now Errorf fn s =
    Execute_record now (fst (fn (world s1))) (exec (call fn) s1).
Proof.
  intros Henter Hst. unfold Execute, bind. rewrite Henter.
  unfold Execute_finish.
  destruct (State_eqb_spec st StateOpen) as [? | _]; [contradiction |].
  unfold bind, exec. rewrite call_eq. reflexivity.
Qed.

Lemma Execute_record_frame (err : option error) s :
  eval (Execute_record now err) s = err /\
  world (exec (Execute_record now err) s) = world s /\
  invocations (exec (Execute_record now err) s) = invocations s.
Proof.
  destruct err as [e |]; unfold eval, exec, Execute_record, bind, ret.
  - pose proof (recordFailure_frame s) as [Hw Hn]. unfold exec in Hw, Hn.
    destruct (recordFailure now s) as [[] s']; simpl in *. auto.
  - pose proof (recordSuccess_frame s) as [Hw Hn]. unfold exec in Hw, Hn.
    destruct (recordSuccess s) as [[] s']; simpl in *. auto.
Qed.

Lemma Execute_record_failure (e : error) s :
  exec (Execute_record now (Some e)) s = exec (recordFailure now) s.
Proof.
  unfold exec, Execute_record, bind, ret.
  destruct (recordFailure now s) as [[] s']; reflexivity.
Qed.

Lemma Execute_record_success s :
  exec (Execute_record now (@None error)) s = exec recordSuccess s.
Proof.
  unfold exec, Execute_record, bind, ret.
  destruct (recordSuccess s) as [[] s']; reflexivity.
Qed.

(** What a call that is let through does, for either outcome. *)
Lemma Execute_forward_frame fn s st s1 :
  Execute_enter now s = (Some st, s1) ->
  st <> StateOpen ->
  world s1 = world s ->
  invocations s1 = invocations s ->
  eval (Execute now Errorf fn) s = fst (fn (world s)) /\
  world (exec (Execute now Errorf fn) s) = snd (fn (world s)) /\
  invocations (exec (Execute now Errorf fn) s) = S (invocations s).
Proof.
  intros Henter Hst Hw Hn.
  pose proof (Execute_record_frame (fst (fn (world s1))) (exec (call fn) s1))
    as (Hr & Hw' & Hn').
  unfold eval, exec in *.
  rewrite (Execute_forward fn s st s1 Henter Hst). unfold exec.
  rewrite Hr, Hw', Hn'. rewrite call_eq. simpl.
  rewrite Hw, Hn. auto.
Qed.

(** Outside [StateOpen] a call is the operation followed by the record of
    its outcome. *)
Lemma Execute_not_open fn s :
  state (breaker s) <> StateOpen ->
  Execute now Errorf fn s =
    Execute_record now (fst (fn (world s))) (exec (call fn) s).
Proof.
  intros Hst.
  apply (Execute_forward fn s (state (breaker s)) s); [| exact Hst].
  apply Execute_enter_pass, Hst.
Qed.

Lemma Execute_not_open_failure fn s (e : error) :
  state (breaker s) <> StateOpen ->
  fst (fn (world s)) = Some e ->
  eval (Execute now Errorf fn) s = Some e /\
  exec (Execute now Errorf fn) s =
    exec (recordFailure now) (exec (call fn) s).
Proof.
  intros Hst Hfail. unfold eval, exec at 1.
  rewrite (Execute_not_open fn s Hst), Hfail.
  split.
  - apply (Execute_record_frame (Some e)).
  - apply Execute_record_failure.
Qed.

Lemma Execute_not_open_success fn s :
  state (breaker s) <> StateOpen ->
  fst (fn (world s)) = None ->
  eval (Execute now Errorf fn) s = None /\
  exec (Execute now Errorf fn) s = exec recordSuccess (exec (call fn) s).
Proof.
  intros Hst Hok. unfold eval, exec at 1.
  rewrite (Execute_not_open fn s Hst), Hok.
  split.
  - apply (Execute_record_frame None).
  - apply Execute_record_success.
Qed.

Lemma breaker_after_call fn s : breaker (exec (call fn) s) = breaker s.
Proof. unfold exec. rewrite call_eq. reflexivity. Qed.

Lemma world_after_call fn s :
  world (exec (call fn) s) = snd (fn (world s)).
Proof. unfold exec. rewrite call_eq. reflexivity. Qed.

(** ** Single calls *)

(** C2. While the breaker is in [StateOpen] and the time elapsed since
    [lastFailureTime] is less than [timeout], [Execute] returns the
    circuit-open error and leaves the whole system as it found it: the
    wrapped operation is not invoked, and no field of the breaker (state,
    counters, time stamp) changes. *)
Theorem Execute_refuses_within_cooldown fn s :
  state (breaker s) = StateOpen ->
  Sub (now (world s)) (lastFailureTime (breaker s)) < timeout (breaker s) ->
  Execute now Errorf fn s = (Some (Errorf openMessage), s) /\
  invocations (exec (Execute now Errorf fn) s) = invocations s /\
  breaker (exec (Execute now Errorf fn) s) = breaker s.
Proof.
  intros Hopen Hlt.
  assert (Heq : Execute now Errorf fn s = (Some (Errorf openMessage), s)).
  { unfold Execute, bind.
    rewrite (Execute_enter_refuse s Hopen) by lia. reflexivity. }
  unfold exec. rewrite Heq. auto.
Qed.

(** C3. When the breaker is in [StateOpen] and the time elapsed since
    [lastFailureTime] exceeds [timeout], the call moves the breaker to
    [StateHalfOpen] with [successCount] set to 0 and goes on, within the
    same call, as a call made in that state does: the wrapped operation is
    invoked exactly once and its outcome is recorded from [StateHalfOpen]. *)
Theorem Execute_probes_after_cooldown fn s :
  state (breaker s) = StateOpen ->
  timeout (breaker s) < Sub (now (world s)) (lastFailureTime (breaker s)) ->
  let probing :=
    mkSys (set_successCount 0 (set_state StateHalfOpen (breaker s)))
      (world s) (invocations s) (logged s ++ [LogToHalfOpen]) in
  Execute_enter now s = (Some StateHalfOpen, probing) /\
  state (breaker probing) = StateHalfOpen /\
  successCount (breaker probing) = 0 /\
  Execute now Errorf fn s = Execute now Errorf fn probing /\
  Execute now Errorf fn s =
    Execute_record now (fst (fn (world s))) (exec (call fn) probing) /\
  eval (Execute now Errorf fn) s = fst (fn (world s)) /\
  world (exec (Execute now Errorf fn) s) = snd (fn (world s)) /\
  invocations (exec (Execute now Errorf fn) s) = S (invocations s).
Proof.
  intros Hopen Hgt probing.
  pose proof (Execute_enter_probe s Hopen Hgt) as Henter.
  fold probing in Henter.
  assert (Hhalf : StateHalfOpen <> StateOpen) by discriminate.
  assert (Hpass : Execute_enter now probing = (Some StateHalfOpen, probing)).
  { apply (Execute_enter_pass probing). simpl. discriminate. }
  split; [exact Henter |].
  split; [reflexivity |]. split; [reflexivity |].
  split.
  { rewrite (Execute_forward fn s _ _ Henter Hhalf).
    rewrite (Execute_forward fn probing _ _ Hpass Hhalf). reflexivity. }
  split.
  { apply (Execute_forward fn s _ _ Henter Hhalf). }
  apply (Execute_forward_frame fn s _ _ Henter Hhalf); reflexivity.
Qed.

(** C4. A call made in [StateHalfOpen] whose probe fails returns the
    probe's error and leaves the breaker in [StateOpen] with
    [failureCount] 0 and [lastFailureTime] set to the clock's reading when
    the failure is recorded.  Nothing is assumed about [failureCount],
    [successCount] or [maxFailures]: one failed probe is enough. *)
Theorem probe_failure_reopens fn s (e : error) :
  state (breaker s) = StateHalfOpen ->
  fst (fn (world s)) = Some e ->
  eval (Execute now Errorf fn) s = Some e /\
  invocations (exec (Execute now Errorf fn) s) = S (invocations s) /\
  state (breaker (exec (Execute now Errorf fn) s)) = StateOpen /\
  failureCount (breaker (exec (Execute now Errorf fn) s)) = 0 /\
  lastFailureTime (breaker (exec (Execute now Errorf fn) s)) =
    now (snd (fn (world s))) /\
  world (exec (Execute now Errorf fn) s) = snd (fn (world s)).
Proof.
  intros Hhalf Hfail.
  assert (Hpass : Execute_enter now s = (Some (state (breaker s)), s)).
  { apply Execute_enter_pass. rewrite Hhalf. discriminate. }
  assert (Hst : state (breaker s) <> StateOpen)
    by (rewrite Hhalf; discriminate).
  pose proof (Execute_forward_frame fn s _ _ Hpass Hst eq_refl eq_refl)
    as (Hr & Hw & Hn).
  rewrite Hr, Hw, Hn, Hfail.
  split; [reflexivity |]. split; [reflexivity |].
  assert (Hs' : exec (Execute now Errorf fn) s =
                exec (recordFailure now) (exec (call fn) s)).
  { rewrite <- (Execute_record_failure e). unfold exec at 1.
    rewrite (Execute_forward fn s _ _ Hpass Hst), Hfail. reflexivity. }
  rewrite Hs', recordFailure_HalfOpen.
  - unfold exec. rewrite call_eq. simpl. auto.
  - unfold exec. rewrite call_eq. simpl. exact Hhalf.
Qed.

(** C5. A call made in [StateHalfOpen] whose probe succeeds increments
    [successCount] (Go's [++]); when the incremented count reaches 2, the
    number of probe successes the implementation asks for, the breaker
    moves to [StateClosed] with both counters 0, and below 2 it stays in
    [StateHalfOpen] with the incremented count.  From the count 0 with
    which [StateHalfOpen] is entered, the first success gives the count 1
    and the second one closes the breaker. *)
Theorem probe_success_counts fn s :
  state (breaker s) = StateHalfOpen ->
  fst (fn (world s)) = None ->
  let c := GoInt.incr (successCount (breaker s)) in
  let s' := exec (Execute now Errorf fn) s in
  eval (Execute now Errorf fn) s = None /\
  (2 <= c ->
   state (breaker s') = StateClosed /\
   successCount (breaker s') = 0 /\ failureCount (breaker s') = 0) /\
  (c < 2 ->
   state (breaker s') = StateHalfOpen /\
   successCount (breaker s') = c /\ failureCount (breaker s') = 0) /\
  (successCount (breaker s) = 0 ->
   state (breaker s') = StateHalfOpen /\ successCount (breaker s') = 1) /\
  (successCount (breaker s) = 1 ->
   state (breaker s') = StateClosed /\
   successCount (breaker s') = 0 /\ failureCount (breaker s') = 0).
Proof.
  intros Hhalf Hok c s'.
  assert (Hst : state (breaker s) <> StateOpen)
    by (rewrite Hhalf; discriminate).
  destruct (Execute_not_open_success fn s Hst Hok) as [Hr Hs'].
  fold s' in Hs'.
  assert (Hhalf' : state (breaker (exec (call fn) s)) = StateHalfOpen)
    by (rewrite breaker_after_call; exact Hhalf).
  assert (Hclose : 2 <= c ->
    state (breaker s') = StateClosed /\
    successCount (breaker s') = 0 /\ failureCount (breaker s') = 0).
  { intros Hc. rewrite Hs', recordSuccess_HalfOpen_close.
    - simpl. auto.
    - exact Hhalf'.
    - rewrite breaker_after_call. exact Hc. }
  assert (Hstay : c < 2 ->
    state (breaker s') = StateHalfOpen /\
    successCount (breaker s') = c /\ failureCount (breaker s') = 0).
  { intros Hc. rewrite Hs', recordSuccess_HalfOpen_below.
    - simpl. rewrite !breaker_after_call. auto.
    - exact Hhalf'.
    - rewrite breaker_after_call. exact Hc. }
  split; [exact Hr |]. split; [exact Hclose |]. split; [exact Hstay |].
  split.
  - intros Hzero.
    assert (Hc : c = 1) by (unfold c; rewrite Hzero; reflexivity).
    destruct Hstay as (? & ? & ?); [lia |]. split; congruence.
  - intros Hone.
    assert (Hc : c = 2) by (unfold c; rewrite Hone; reflexivity).
    apply Hclose. lia.
Qed.

(** What a recorded failure leaves in the breaker. *)
Lemma recordFailure_effect s :
  lastFailureTime (breaker (exec (recordFailure now) s)) = now (world s) /\
  successCount (breaker (exec (recordFailure now) s)) =
    successCount (breaker s) /\
  (state (breaker s) = StateHalfOpen \/
   maxFailures (breaker s) <= GoInt.incr (failureCount (breaker s)) ->
   state (breaker (exec (recordFailure now) s)) = StateOpen /\
   failureCount (breaker (exec (recordFailure now) s)) = 0) /\
  (state (breaker s) <> StateHalfOpen ->
   GoInt.incr (failureCount (breaker s)) < maxFailures (breaker s) ->
   state (breaker (exec (recordFailure now) s)) = state (breaker s) /\
   failureCount (breaker (exec (recordFailure now) s)) =
     GoInt.incr (failureCount (breaker s))).
Proof.
  destruct (State_eqb_spec (state (breaker s)) StateHalfOpen) as [Hhalf | Hnot].
  - rewrite recordFailure_HalfOpen by exact Hhalf. simpl.
    split; [reflexivity |]. split; [reflexivity |]. split.
    + intros _. split; reflexivity.
    + intros Hnot. contradiction.
  - destruct (Z_lt_ge_dec (GoInt.incr (failureCount (breaker s)))
                (maxFailures (breaker s))) as [Hlt | Hge].
    + rewrite recordFailure_below by assumption. simpl.
      split; [reflexivity |]. split; [reflexivity |]. split.
      * intros [Hhalf | Hge]; [contradiction | lia].
      * intros _ _. split; reflexivity.
    + rewrite recordFailure_trip by (try assumption; lia). simpl.
      split; [reflexivity |]. split; [reflexivity |]. split.
      * intros _. split; reflexivity.
      * intros _ Hlt. lia.
Qed.

(** What a recorded success leaves in the breaker. *)
Lemma recordSuccess_effect s :
  failureCount (breaker (exec recordSuccess s)) = 0 /\
  lastFailureTime (breaker (exec recordSuccess s)) =
    lastFailureTime (breaker s).
Proof.
  destruct s as [[st fc sc lt mf tmo hto] w n l].
  unfold exec, recordSuccess, bind, modifyCB, getCB; simpl.
  destruct st; simpl; auto.
  destruct (GoInt.incr sc >=? 2); simpl; auto.
Qed.

(** C8. Every call either is refused, in which case the operation is not
    invoked, nothing changes and the result is the circuit-open error, or
    invokes the operation once and returns exactly what the operation
    returned, after recording it: a failure with [recordFailure], a success
    with [recordSuccess].  So an error of the operation is never dropped or
    replaced, and the breaker's own error appears only with a refusal.
    Recording the failure is visible in the breaker: [lastFailureTime] is
    the clock's reading after the operation, and the failure either opens
    the breaker with the count spent (from [StateHalfOpen], or when the
    incremented count reaches [maxFailures]) or is counted. *)
Theorem Execute_returns_operation_error fn s :
  (Execute now Errorf fn s = (Some (Errorf openMessage), s) /\
   state (breaker s) = StateOpen) \/
  (exists s1 : Sys World,
     exec (Execute_enter now) s = s1 /\
     invocations s1 = invocations s /\
     world s1 = world s /\
     invocations (exec (Execute now Errorf fn) s) = S (invocations s) /\
     eval (Execute now Errorf fn) s = fst (fn (world s)) /\
     (forall e : error,
        fst (fn (world s)) = Some e ->
        eval (Execute now Errorf fn) s = Some e /\
        exec (Execute now Errorf fn) s =
          exec (recordFailure now) (exec (call fn) s1) /\
        world (exec (Execute now Errorf fn) s) = snd (fn (world s)) /\
        lastFailureTime (breaker (exec (Execute now Errorf fn) s)) =
          now (snd (fn (world s))) /\
        (state (breaker s1) = StateHalfOpen \/
         maxFailures (breaker s) <= GoInt.incr (failureCount (breaker s)) ->
         state (breaker (exec (Execute now Errorf fn) s)) = StateOpen /\
         failureCount (breaker (exec (Execute now Errorf fn) s)) = 0) /\
        (state (breaker s1) <> StateHalfOpen ->
         GoInt.incr (failureCount (breaker s)) < maxFailures (breaker s) ->
         state (breaker (exec (Execute now Errorf fn) s)) =
           state (breaker s) /\
         failureCount (breaker (exec (Execute now Errorf fn) s)) =
           GoInt.incr (failureCount (breaker s)))) /\
     (fst (fn (world s)) = None ->
      exec (Execute now Errorf fn) s =
        exec recordSuccess (exec (call fn) s1) /\
      failureCount (breaker (exec (Execute now Errorf fn) s)) = 0 /\
      lastFailureTime (breaker (exec (Execute now Errorf fn) s)) =
        lastFailureTime (breaker s))).
Proof.
  assert (Hforward : forall st s1,
            Execute_enter now s = (Some st, s1) ->
            st <> StateOpen ->
            world s1 = world s ->
            invocations s1 = invocations s ->
            failureCount (breaker s1) = failureCount (breaker s) ->
            maxFailures (breaker s1) = maxFailures (breaker s) ->
            lastFailureTime (breaker s1) = lastFailureTime (breaker s) ->
            (state (breaker s1) <> StateHalfOpen ->
             state (breaker s1) = state (breaker s)) ->
            invocations (exec (Execute now Errorf fn) s) = S (invocations s) /\
            eval (Execute now Errorf fn) s = fst (fn (world s)) /\
            (forall e : error,
               fst (fn (world s)) = Some e ->
               eval (Execute now Errorf fn) s = Some e /\
               exec (Execute now Errorf fn) s =
                 exec (recordFailure now) (exec (call fn) s1) /\
               world (exec (Execute now Errorf fn) s) = snd (fn (world s)) /\
               lastFailureTime (breaker (exec (Execute now Errorf fn) s)) =
                 now (snd (fn (world s))) /\
               (state (breaker s1) = StateHalfOpen \/
                maxFailures (breaker s) <=
                  GoInt.incr (failureCount (breaker s)) ->
                state (breaker (exec (Execute now Errorf fn) s)) = StateOpen /\
                failureCount (breaker (exec (Execute now Errorf fn) s)) = 0) /\
               (state (breaker s1) <> StateHalfOpen ->
                GoInt.incr (failureCount (breaker s)) <
                  maxFailures (breaker s) ->
                state (breaker (exec (Execute now Errorf fn) s)) =
                  state (breaker s) /\
                failureCount (breaker (exec (Execute now Errorf fn) s)) =
                  GoInt.incr (failureCount (breaker s)))) /\
            (fst (fn (world s)) = None ->
             exec (Execute now Errorf fn) s =
               exec recordSuccess (exec (call fn) s1) /\
             failureCount (breaker (exec (Execute now Errorf fn) s)) = 0 /\
             lastFailureTime (breaker (exec (Execute now Errorf fn) s)) =
               lastFailureTime (breaker s))).
  { intros st s1 Henter Hst Hw Hn Hfc Hmf Hlft Hsame.
    pose proof (Execute_forward_frame fn s _ _ Henter Hst Hw Hn)
      as (Hr & Hworld & Hcount).
    split; [exact Hcount |]. split; [exact Hr |]. split.
    - intros e Hfail.
      assert (Hs' : exec (Execute now Errorf fn) s =
                    exec (recordFailure now) (exec (call fn) s1)).
      { rewrite <- (Execute_record_failure e). unfold exec at 1.
        rewrite (Execute_forward fn s _ _ Henter Hst), Hw, Hfail.
        reflexivity. }
      destruct (recordFailure_effect (exec (call fn) s1))
        as (Hstamp & _ & Hopens & Hcounts).
      rewrite breaker_after_call in Hopens, Hcounts.
      rewrite world_after_call, Hw in Hstamp.
      rewrite Hfc, Hmf in Hopens, Hcounts.
      split; [congruence |]. split; [exact Hs' |].
      split; [exact Hworld |]. rewrite Hs'.
      split; [exact Hstamp |]. split; [exact Hopens |].
      intros Hnot Hlt. destruct (Hcounts Hnot Hlt) as [Hstate Hcounted].
      split; [rewrite Hstate; apply Hsame, Hnot | exact Hcounted].
    - intros Hok.
      assert (Hs' : exec (Execute now Errorf fn) s =
                    exec recordSuccess (exec (call fn) s1)).
      { rewrite <- Execute_record_success. unfold exec at 1.
        rewrite (Execute_forward fn s _ _ Henter Hst), Hw, Hok.
        reflexivity. }
      destruct (recordSuccess_effect (exec (call fn) s1)) as [Hzero Hkept].
      rewrite breaker_after_call in Hkept.
      split; [exact Hs' |]. rewrite Hs'.
      split; [exact Hzero | congruence]. }
  destruct (Execute_enter_cases s)
    as [[Hst Henter] | [(Hopen & Hle & Henter) | (Hopen & Hgt & Henter)]].
  - right. exists s. unfold exec at 1. rewrite Henter. simpl.
    split; [reflexivity |]. split; [reflexivity |]. split; [reflexivity |].
    apply (Hforward _ _ Henter Hst); auto.
  - left. split; [| exact Hopen].
    unfold Execute, bind. rewrite Henter. reflexivity.
  - right. eexists. unfold exec at 1. rewrite Henter. simpl.
    split; [reflexivity |]. split; [reflexivity |]. split; [reflexivity |].
    apply (Hforward _ _ Henter); try reflexivity; try discriminate.
    simpl. intros Hnot. contradiction.
Qed.

(** C9. In every state of the breaker [GetState] returns the name of the
    current state, which determines that state, and leaves the system as
    it found it: state, [failureCount], [successCount] and
    [lastFailureTime] are unchanged. *)
Theorem GetState_reads_only s :
  GetState s = (State_String (state (breaker s)), s) /\
  (forall st : State,
     State_String st = eval GetState s -> st = state (breaker s)) /\
  breaker (exec GetState s) = breaker s.
Proof.
  split; [reflexivity |]. split; [| reflexivity].
  intros st Hname. apply State_String_inj. exact Hname.
Qed.

(** C10. The state captured at the end of the first critical section is
    never [StateOpen]: it is [StateClosed] or [StateHalfOpen].  Hence the
    test of [currentState] after the unlock never succeeds, the rest of
    [Execute] is the operation followed by the record of its outcome, and
    the operation is invoked (once) exactly when a state was captured;
    otherwise the call has returned from inside the first critical
    section without invoking it. *)
Theorem captured_state_never_open fn s :
  (forall st : State,
     eval (Execute_enter now) s = Some st ->
     (st = StateClosed \/ st = StateHalfOpen) /\
     st = state (breaker (exec (Execute_enter now) s)) /\
     Execute_finish now Errorf st fn = bind (call fn) (Execute_record now) /\
     invocations (exec (Execute now Errorf fn) s) = S (invocations s)) /\
  (eval (Execute_enter now) s = None ->
   Execute now Errorf fn s = (Some (Errorf openMessage), s) /\
   invocations (exec (Execute now Errorf fn) s) = invocations s) /\
  (invocations (exec (Execute now Errorf fn) s) = S (invocations s) <->
   eval (Execute_enter now) s = Some StateClosed \/
   eval (Execute_enter now) s = Some StateHalfOpen).
Proof.
  unfold eval, exec.
  destruct (Execute_enter_cases s)
    as [[Hst Henter] | [(Hopen & Hle & Henter) | (Hopen & Hgt & Henter)]].
  - pose proof (Execute_forward_frame fn s _ _ Henter Hst eq_refl eq_refl)
      as (_ & _ & Hn).
    unfold exec in Hn. rewrite Henter; simpl.
    split; [| split].
    + intros st [= <-]. repeat split; auto.
      * destruct (state (breaker s)); auto. congruence.
      * destruct (state (breaker s)); try reflexivity. congruence.
    + discriminate.
    + split; [| intros _; exact Hn].
      intros _. destruct (state (breaker s)); auto. congruence.
  - assert (Heq : Execute now Errorf fn s = (Some (Errorf openMessage), s)).
    { unfold Execute, bind. rewrite Henter. reflexivity. }
    rewrite Henter, Heq; simpl.
    split; [| split].
    + discriminate.
    + auto.
    + split; [lia | intros [? | ?]; discriminate].
  - assert (Hhalf : StateHalfOpen <> StateOpen) by discriminate.
    pose proof (Execute_forward_frame fn s _ _ Henter Hhalf eq_refl eq_refl)
      as (_ & _ & Hn).
    unfold exec in Hn. rewrite Henter; simpl.
    split; [| split].
    + intros st [= <-]. repeat split; auto.
    + discriminate.
    + split; auto.
Qed.

(** ** Runs of calls *)

(** The configuration is immutable. *)
Lemma recordFailure_keeps_configuration s :
  same_configuration (breaker s) (breaker (exec (recordFailure now) s)).
Proof.
  destruct s as [[st fc sc lt mf tmo hto] w n l].
  unfold same_configuration, exec, recordFailure, bind, modifyCB, timeNow,
    getCB; simpl.
  destruct st; simpl; auto.
  all: destruct (GoInt.incr fc >=? mf); simpl; auto.
Qed.

Lemma recordSuccess_keeps_configuration s :
  same_configuration (breaker s) (breaker (exec recordSuccess s)).
Proof.
  destruct s as [[st fc sc lt mf tmo hto] w n l].
  unfold same_configuration, exec, recordSuccess, bind, modifyCB, getCB; simpl.
  destruct st; simpl; auto.
  destruct (GoInt.incr sc >=? 2); simpl; auto.
Qed.

Lemma Execute_keeps_configuration fn s :
  same_configuration (breaker s) (breaker (exec (Execute now Errorf fn) s)).
Proof.
  assert (Hrecord : forall (err : option error) s1,
            same_configuration (breaker s) (breaker s1) ->
            same_configuration (breaker s)
              (breaker (exec (Execute_record now err) (exec (call fn) s1)))).
  { intros err s1 (Hmf & Htmo & Hhto).
    destruct err as [e |].
    - rewrite Execute_record_failure.
      destruct (recordFailure_keeps_configuration (exec (call fn) s1))
        as (Hmf' & Htmo' & Hhto').
      rewrite breaker_after_call in Hmf', Htmo', Hhto'.
      unfold same_configuration. repeat split; congruence.
    - rewrite Execute_record_success.
      destruct (recordSuccess_keeps_configuration (exec (call fn) s1))
        as (Hmf' & Htmo' & Hhto').
      rewrite breaker_after_call in Hmf', Htmo', Hhto'.
      unfold same_configuration. repeat split; congruence. }
  destruct (Execute_enter_cases s)
    as [[Hst Henter] | [(Hopen & Hle & Henter) | (Hopen & Hgt & Henter)]].
  - unfold exec at 1. rewrite (Execute_forward fn s _ _ Henter Hst).
    apply Hrecord. repeat split.
  - unfold exec, Execute, bind. rewrite Henter. repeat split.
  - assert (Hhalf : StateHalfOpen <> StateOpen) by discriminate.
    unfold exec at 1. rewrite (Execute_forward fn s _ _ Henter Hhalf).
    apply Hrecord. repeat split.
Qed.

Lemma history_app (fns1 fns2 : list (Operation World error)) s :
  history now Errorf (fns1 ++ fns2) s =
    history now Errorf fns1 s ++
    history now Errorf fns2 (after now Errorf fns1 s).
Proof.
  revert s. induction fns1 as [| fn fns1 IH]; intros s; simpl.
  - reflexivity.
  - rewrite IH. reflexivity.
Qed.

Lemma after_app (fns1 fns2 : list (Operation World error)) s :
  after now Errorf (fns1 ++ fns2) s =
    after now Errorf fns2 (after now Errorf fns1 s).
Proof.
  revert s. induction fns1 as [| fn fns1 IH]; intros s; simpl; auto.
Qed.

(** A failed call in [StateClosed] below the threshold is counted. *)
Lemma closed_failure_counted fn s :
  state (breaker s) = StateClosed ->
  GoInt.min_int <= failureCount (breaker s) < GoInt.max_int ->
  failureCount (breaker s) + 1 < maxFailures (breaker s) ->
  eval (Execute now Errorf fn) s <> None ->
  state (breaker (exec (Execute now Errorf fn) s)) = StateClosed /\
  failureCount (breaker (exec (Execute now Errorf fn) s)) =
    failureCount (breaker s) + 1.
Proof.
  intros Hclosed Hrange Hbelow Hfailed.
  assert (Hst : state (breaker s) <> StateOpen)
    by (rewrite Hclosed; discriminate).
  destruct (fst (fn (world s))) as [e |] eqn:Hout.
  - destruct (Execute_not_open_failure fn s e Hst Hout) as [_ ->].
    rewrite recordFailure_below; rewrite !breaker_after_call.
    + simpl. split; [exact Hclosed | apply incr_small, Hrange].
    + rewrite Hclosed. discriminate.
    + rewrite incr_small by exact Hrange. exact Hbelow.
  - destruct (Execute_not_open_success fn s Hst Hout) as [Hnil _].
    contradiction.
Qed.

(** A failed call in [StateClosed] that reaches the threshold trips the
    breaker. *)
Lemma closed_failure_trips fn s :
  state (breaker s) = StateClosed ->
  GoInt.min_int <= failureCount (breaker s) < GoInt.max_int ->
  maxFailures (breaker s) <= failureCount (breaker s) + 1 ->
  eval (Execute now Errorf fn) s <> None ->
  state (breaker (exec (Execute now Errorf fn) s)) = StateOpen /\
  failureCount (breaker (exec (Execute now Errorf fn) s)) = 0 /\
  lastFailureTime (breaker (exec (Execute now Errorf fn) s)) =
    now (world (exec (Execute now Errorf fn) s)).
Proof.
  intros Hclosed Hrange Hreach Hfailed.
  assert (Hst : state (breaker s) <> StateOpen)
    by (rewrite Hclosed; discriminate).
  destruct (fst (fn (world s))) as [e |] eqn:Hout.
  - destruct (Execute_not_open_failure fn s e Hst Hout) as [_ ->].
    destruct (recordFailure_frame (exec (call fn) s)) as [-> _].
    rewrite recordFailure_trip; rewrite ?breaker_after_call.
    + simpl. auto.
    + rewrite Hclosed. discriminate.
    + rewrite incr_small by exact Hrange. exact Hreach.
  - destruct (Execute_not_open_success fn s Hst Hout) as [Hnil _].
    contradiction.
Qed.

(** A successful call in [StateClosed] clears the failure count. *)
Lemma closed_success_clears fn s :
  state (breaker s) = StateClosed ->
  eval (Execute now Errorf fn) s = None ->
  state (breaker (exec (Execute now Errorf fn) s)) = StateClosed /\
  failureCount (breaker (exec (Execute now Errorf fn) s)) = 0.
Proof.
  intros Hclosed Hnil.
  assert (Hst : state (breaker s) <> StateOpen)
    by (rewrite Hclosed; discriminate).
  destruct (fst (fn (world s))) as [e |] eqn:Hout.
  - destruct (Execute_not_open_failure fn s e Hst Hout) as [Herr _].
    congruence.
  - destruct (Execute_not_open_success fn s Hst Hout) as [_ ->].
    rewrite recordSuccess_other; rewrite ?breaker_after_call.
    + simpl. auto.
    + rewrite Hclosed. discriminate.
Qed.

(** Failed calls that stay below the threshold leave the breaker in
    [StateClosed] and are counted one by one. *)
Lemma closed_failures_accumulate (fns : list (Operation World error)) :
  forall s,
    state (breaker s) = StateClosed ->
    0 <= failureCount (breaker s) ->
    failureCount (breaker s) + Z.of_nat (List.length fns) <
      maxFailures (breaker s) ->
    maxFailures (breaker s) <= GoInt.max_int ->
    Forall failed (history now Errorf fns s) ->
    Forall left_closed (history now Errorf fns s) /\
    state (breaker (after now Errorf fns s)) = StateClosed /\
    failureCount (breaker (after now Errorf fns s)) =
      failureCount (breaker s) + Z.of_nat (List.length fns) /\
    maxFailures (breaker (after now Errorf fns s)) = maxFailures (breaker s).
Proof.
  induction fns as [| fn fns IH]; intros s Hclosed Hnonneg Hbelow Hmax Hfailed.
  - simpl. repeat split; auto. lia.
  - simpl in Hfailed. apply Forall_cons_iff in Hfailed as [Hfn Hrest].
    simpl List.length in Hbelow. rewrite Nat2Z.inj_succ in Hbelow.
    assert (Hrange : GoInt.min_int <= failureCount (breaker s) < GoInt.max_int).
    { unfold GoInt.min_int. lia. }
    destruct (closed_failure_counted fn s Hclosed Hrange ltac:(lia) Hfn)
      as [Hclosed1 Hcount1].
    destruct (Execute_keeps_configuration fn s) as (Hmf & _ & _).
    simpl in Hmf.
    destruct (IH (exec (Execute now Errorf fn) s)) as (Hall & Hst & Hfc & Hcfg).
    + exact Hclosed1.
    + lia.
    + rewrite Hcount1, Hmf. lia.
    + rewrite Hmf. exact Hmax.
    + exact Hrest.
    + simpl. split; [| split; [| split]].
      * constructor; [exact Hclosed1 | exact Hall].
      * exact Hst.
      * rewrite Hfc, Hcount1. simpl List.length. lia.
      * rewrite Hcfg. exact Hmf.
Qed.

(** ** The fields between two calls *)

Lemma NewCircuitBreaker_consistent : consistent NewCircuitBreaker.
Proof.
  unfold consistent, NewCircuitBreaker, GoInt.max_int; simpl.
  repeat split; try lia; congruence.
Qed.

Lemma recordFailure_consistent s :
  state (breaker s) <> StateOpen ->
  consistent (breaker s) ->
  consistent (breaker (exec (recordFailure now) s)).
Proof.
  intros Hst (Hmf & Hfc & Hsc & Hclosed & Hother).
  assert (Hincr : GoInt.incr (failureCount (breaker s)) =
                  failureCount (breaker s) + 1).
  { apply incr_small. unfold GoInt.min_int. lia. }
  destruct (State_eqb_spec (state (breaker s)) StateHalfOpen) as [Hhalf | Hnot].
  - rewrite recordFailure_HalfOpen by exact Hhalf.
    unfold consistent; simpl. repeat split; try lia; discriminate.
  - destruct (Z_lt_ge_dec (failureCount (breaker s) + 1)
                (maxFailures (breaker s))) as [Hlt | Hge].
    + rewrite recordFailure_below by (rewrite ?Hincr; assumption).
      unfold consistent; simpl. rewrite Hincr.
      repeat split; try lia; try assumption.
      intros Hnc. destruct (state (breaker s)); congruence.
    + rewrite recordFailure_trip by (rewrite ?Hincr; try assumption; lia).
      unfold consistent; simpl. repeat split; try lia; discriminate.
Qed.

Lemma recordSuccess_consistent s :
  consistent (breaker s) ->
  consistent (breaker (exec recordSuccess s)).
Proof.
  intros (Hmf & Hfc & Hsc & Hclosed & Hother).
  destruct (State_eqb_spec (state (breaker s)) StateHalfOpen) as [Hhalf | Hnot].
  - assert (Hincr : GoInt.incr (successCount (breaker s)) =
                    successCount (breaker s) + 1).
    { apply incr_small. unfold GoInt.min_int, GoInt.max_int. lia. }
    destruct (Z_lt_ge_dec (successCount (breaker s) + 1) 2) as [Hlt | Hge].
    + rewrite recordSuccess_HalfOpen_below by (rewrite ?Hincr; assumption).
      unfold consistent; simpl. rewrite Hincr, Hhalf.
      repeat split; try lia; discriminate.
    + rewrite recordSuccess_HalfOpen_close
        by (rewrite ?Hincr; try assumption; lia).
      unfold consistent; simpl. repeat split; lia.
  - rewrite recordSuccess_other by exact Hnot.
    unfold consistent; simpl. repeat split; try lia; assumption.
Qed.

(** Every call keeps the fields consistent: on the states a sequential
    caller can reach no counter ever wraps around. *)
Lemma Execute_consistent fn s :
  consistent (breaker s) ->
  consistent (breaker (exec (Execute now Errorf fn) s)).
Proof.
  intros Hcons.
  assert (Hrecord : forall s1 st,
            Execute_enter now s = (Some st, s1) ->
            st <> StateOpen ->
            state (breaker s1) = st ->
            consistent (breaker s1) ->
            consistent (breaker (exec (Execute now Errorf fn) s))).
  { intros s1 st Henter Hst Hcaptured Hcons1.
    unfold exec at 1. rewrite (Execute_forward fn s _ _ Henter Hst).
    destruct (fst (fn (world s1))) as [e |].
    - fold (exec (Execute_record now (Some e)) (exec (call fn) s1)).
      rewrite Execute_record_failure.
      apply recordFailure_consistent; rewrite breaker_after_call; congruence.
    - fold (exec (Execute_record now (@None error)) (exec (call fn) s1)).
      rewrite Execute_record_success.
      apply recordSuccess_consistent; rewrite breaker_after_call; assumption. }
  destruct (Execute_enter_cases s)
    as [[Hst Henter] | [(Hopen & Hle & Henter) | (Hopen & Hgt & Henter)]].
  - apply (Hrecord s _ Henter Hst eq_refl Hcons).
  - unfold exec, Execute, bind. rewrite Henter. exact Hcons.
  - apply (Hrecord _ _ Henter); [discriminate | reflexivity |].
    destruct Hcons as (Hmf & Hfc & Hsc & Hclosed & Hother).
    unfold consistent; simpl. repeat split; try lia; try discriminate.
    intros _. apply Hother. rewrite Hopen. discriminate.
Qed.

Lemma after_consistent (fns : list (Operation World error)) :
  forall s,
    consistent (breaker s) ->
    consistent (breaker (after now Errorf fns s)).
Proof.
  induction fns as [| fn fns IH]; intros s Hcons; simpl.
  - exact Hcons.
  - apply IH, Execute_consistent, Hcons.
Qed.

(** C1. From [StateClosed] with no failure counted (the breaker as
    [NewCircuitBreaker] makes it), a run of [maxFailures - 1] calls that
    all fail leaves the breaker in [StateClosed] after every one of them,
    and the next failed call, the [maxFailures]-th in a row, leaves it in
    [StateOpen], with [lastFailureTime] set to the clock's reading and
    [failureCount] back to 0. *)
Theorem closed_trips_at_threshold (fns : list (Operation World error)) fn s :
  state (breaker s) = StateClosed ->
  failureCount (breaker s) = 0 ->
  1 <= maxFailures (breaker s) <= GoInt.max_int ->
  Z.of_nat (List.length fns) = maxFailures (breaker s) - 1 ->
  Forall failed (history now Errorf fns s) ->
  failed (Execute now Errorf fn (after now Errorf fns s)) ->
  let s' := exec (Execute now Errorf fn) (after now Errorf fns s) in
  Forall left_closed (history now Errorf fns s) /\
  state (breaker (after now Errorf fns s)) = StateClosed /\
  failureCount (breaker (after now Errorf fns s)) =
    maxFailures (breaker s) - 1 /\
  state (breaker s') = StateOpen /\
  lastFailureTime (breaker s') = now (world s') /\
  failureCount (breaker s') = 0.
Proof.
  intros Hclosed Hzero Hmax Hlen Hfailed Hlast s'.
  destruct (closed_failures_accumulate fns s) as (Hall & Hst & Hfc & Hcfg);
    try assumption; try lia.
  rewrite Hzero in Hfc. simpl in Hfc.
  assert (Hrange : GoInt.min_int <=
                   failureCount (breaker (after now Errorf fns s)) <
                   GoInt.max_int).
  { unfold GoInt.min_int. lia. }
  destruct (closed_failure_trips fn (after now Errorf fns s) Hst Hrange)
    as (Hopen & Hspent & Hstamp).
  - lia.
  - exact Hlast.
  - repeat split; auto. lia.
Qed.

(** C7. Every recorded success, in whatever state, leaves [failureCount]
    at 0.  As a consequence, from [StateClosed] with no failure counted, a
    run of [maxFailures - 1] failed calls, one successful call and
    [maxFailures - 1] more failed calls leaves the breaker in
    [StateClosed] after every call of the run: it never opens. *)
Theorem success_resets_failure_run :
  (forall s, failureCount (breaker (exec recordSuccess s)) = 0) /\
  (forall (fns1 fns2 : list (Operation World error)) ok s,
     state (breaker s) = StateClosed ->
     failureCount (breaker s) = 0 ->
     1 <= maxFailures (breaker s) <= GoInt.max_int ->
     Z.of_nat (List.length fns1) = maxFailures (breaker s) - 1 ->
     Z.of_nat (List.length fns2) = maxFailures (breaker s) - 1 ->
     Forall failed (history now Errorf fns1 s) ->
     eval (Execute now Errorf ok) (after now Errorf fns1 s) = None ->
     Forall failed
       (history now Errorf fns2 (after now Errorf (fns1 ++ [ok]) s)) ->
     Forall left_closed (history now Errorf (fns1 ++ ok :: fns2) s) /\
     state (breaker (after now Errorf (fns1 ++ ok :: fns2) s)) =
       StateClosed).
Proof.
  split.
  - intros [[st fc sc lt mf tmo hto] w n l].
    unfold exec, recordSuccess, bind, ret, getCB, modifyCB, logPrintln; simpl.
    destruct st; simpl; try reflexivity.
    destruct (GoInt.incr sc >=? 2); reflexivity.
  - intros fns1 fns2 ok s Hclosed Hzero Hmax Hlen1 Hlen2 Hfail1 Hok Hfail2.
    destruct (closed_failures_accumulate fns1 s) as (Hall1 & Hst1 & _ & Hcfg1);
      try assumption; try lia.
    destruct (closed_success_clears ok _ Hst1 Hok) as [Hst2 Hfc2].
    destruct (Execute_keeps_configuration ok (after now Errorf fns1 s))
      as (Hcfg2 & _ & _).
    rewrite after_app in Hfail2. simpl in Hfail2.
    destruct (closed_failures_accumulate fns2
                (exec (Execute now Errorf ok) (after now Errorf fns1 s)))
      as (Hall2 & Hst3 & _ & _); try assumption; try lia.
    split.
    + rewrite history_app. apply Forall_app. split; [exact Hall1 |].
      simpl. constructor; [exact Hst2 | exact Hall2].
    + rewrite after_app. simpl. exact Hst3.
Qed.

(** C6, as the code has it.  A call made in [StateHalfOpen] that leaves the
    breaker in [StateClosed] leaves [successCount] at 0; one that leaves it
    in [StateOpen] leaves [successCount] as it was.  The count is set to 0
    when [StateHalfOpen] is entered from [StateOpen]. *)
Theorem successCount_reset_on_close_and_entry fn s :
  (state (breaker s) = StateHalfOpen ->
   (state (breaker (exec (Execute now Errorf fn) s)) = StateClosed ->
    successCount (breaker (exec (Execute now Errorf fn) s)) = 0) /\
   (state (breaker (exec (Execute now Errorf fn) s)) = StateOpen ->
    fst (fn (world s)) <> None /\
    successCount (breaker (exec (Execute now Errorf fn) s)) =
      successCount (breaker s))) /\
  (state (breaker s) = StateOpen ->
   state (breaker (exec (Execute_enter now) s)) = StateHalfOpen ->
   successCount (breaker (exec (Execute_enter now) s)) = 0).
Proof.
  split.
  - intros Hhalf.
    assert (Hst : state (breaker s) <> StateOpen)
      by (rewrite Hhalf; discriminate).
    destruct (fst (fn (world s))) as [e |] eqn:Hout.
    + destruct (Execute_not_open_failure fn s e Hst Hout) as [_ ->].
      rewrite recordFailure_HalfOpen
        by (rewrite breaker_after_call; exact Hhalf).
      rewrite breaker_after_call. simpl.
      split; [discriminate |]. intros _. split; [discriminate | reflexivity].
    + destruct (Execute_not_open_success fn s Hst Hout) as [_ ->].
      destruct (Z_lt_ge_dec (GoInt.incr (successCount (breaker s))) 2)
        as [Hlt | Hge].
      * rewrite recordSuccess_HalfOpen_below;
          rewrite ?breaker_after_call; try assumption.
        simpl. rewrite Hhalf. split; discriminate.
      * rewrite recordSuccess_HalfOpen_close;
          rewrite ?breaker_after_call; try assumption; try lia.
        simpl. split; [reflexivity | discriminate].
  - intros Hopen. unfold exec.
    destruct (Execute_enter_cases s)
      as [[Hst _] | [(_ & _ & ->) | (_ & _ & ->)]]; simpl.
    + contradiction.
    + rewrite Hopen. discriminate.
    + reflexivity.
Qed.

End BreakerFacts.

(** ** The start-up configuration at work

    The general statements above, taken at the scenarios of [Demo]. *)

Ltac by_evaluation :=
  vm_compute; repeat constructor; try discriminate; try reflexivity.

Lemma closed_trips_at_threshold_witness :
  state (breaker (Demo.after [Demo.failing Second; Demo.failing Second]
                    (Demo.boot 1000))) = StateClosed /\
  state (breaker Demo.tripped) = StateOpen /\
  lastFailureTime (breaker Demo.tripped) = Demo.now (world Demo.tripped) /\
  failureCount (breaker Demo.tripped) = 0.
Proof.
  destruct (closed_trips_at_threshold Demo.now Demo.Errorf
              [Demo.failing Second; Demo.failing Second]
              (Demo.failing Second) (Demo.boot 1000))
    as (_ & Hclosed & _ & Hopen & Hstamp & Hspent).
  - reflexivity.
  - reflexivity.
  - by_evaluation.
  - reflexivity.
  - by_evaluation.
  - by_evaluation.
  - repeat split; assumption.
Defined.

Lemma Execute_refuses_within_cooldown_witness :
  Demo.Execute (Demo.succeeding Second) Demo.cooling =
    (Some (Demo.Errorf openMessage), Demo.cooling).
Proof.
  apply (Execute_refuses_within_cooldown Demo.now Demo.Errorf
           (Demo.succeeding Second) Demo.cooling).
  - reflexivity.
  - by_evaluation.
Defined.

Lemma Execute_probes_after_cooldown_witness :
  Execute_enter Demo.now Demo.cooled =
    (Some StateHalfOpen,
     mkSys (set_successCount 0 (set_state StateHalfOpen (breaker Demo.cooled)))
       (world Demo.cooled) 3 [LogThreshold 3; LogToHalfOpen]) /\
  invocations (exec (Demo.Execute (Demo.succeeding Second)) Demo.cooled) = 4%nat.
Proof.
  destruct (Execute_probes_after_cooldown Demo.now Demo.Errorf
              (Demo.succeeding Second) Demo.cooled)
    as (Henter & _ & _ & _ & _ & _ & _ & Hn).
  - reflexivity.
  - by_evaluation.
  - split; [exact Henter | exact Hn].
Defined.

Lemma probe_failure_reopens_witness :
  state (breaker Demo.probing) = StateHalfOpen /\
  state (breaker Demo.reopened) = StateOpen /\
  failureCount (breaker Demo.reopened) = 0 /\
  lastFailureTime (breaker Demo.reopened) = 16000001000.
Proof.
  destruct (probe_failure_reopens Demo.now Demo.Errorf
              (Demo.failing Second) Demo.probing
              "recommendations service returned status 500"%string)
    as (_ & _ & Hopen & Hspent & Hstamp & _).
  - reflexivity.
  - reflexivity.
  - repeat split; assumption.
Defined.

Lemma probe_success_counts_witness :
  state (breaker (exec (Demo.Execute (Demo.succeeding Second)) Demo.probing)) =
    StateClosed /\
  successCount
    (breaker (exec (Demo.Execute (Demo.succeeding Second)) Demo.probing)) = 0 /\
  failureCount
    (breaker (exec (Demo.Execute (Demo.succeeding Second)) Demo.probing)) = 0.
Proof.
  destruct (probe_success_counts Demo.now Demo.Errorf
              (Demo.succeeding Second) Demo.probing)
    as (_ & _ & _ & _ & Hclose).
  - reflexivity.
  - reflexivity.
  - apply Hclose. reflexivity.
Defined.

Lemma success_resets_failure_run_witness :
  Forall left_closed
    (Demo.history
       ([Demo.failing Second; Demo.failing Second] ++
        Demo.succeeding Second ::
        [Demo.failing Second; Demo.failing Second])
       (Demo.boot 1000)).
Proof.
  apply (proj2 (success_resets_failure_run Demo.now Demo.Errorf)
           [Demo.failing Second; Demo.failing Second]
           [Demo.failing Second; Demo.failing Second]
           (Demo.succeeding Second) (Demo.boot 1000)).
  - reflexivity.
  - reflexivity.
  - by_evaluation.
  - reflexivity.
  - reflexivity.
  - by_evaluation.
  - reflexivity.
  - by_evaluation.
Defined.

Lemma Execute_returns_operation_error_witness :
  eval (Demo.Execute (Demo.failing Second)) Demo.probing =
    Some "recommendations service returned status 500"%string /\
  Demo.reopened =
    exec (recordFailure Demo.now)
      (exec (call (Demo.failing Second)) Demo.probing) /\
  lastFailureTime (breaker Demo.reopened) = 16000001000 /\
  state (breaker Demo.reopened) = StateOpen /\
  failureCount (breaker Demo.reopened) = 0.
Proof.
  destruct (Execute_returns_operation_error Demo.now Demo.Errorf
              (Demo.failing Second) Demo.probing)
    as [[Hrefused _] | (s1 & Hs1 & _ & _ & _ & _ & Hfailure & _)].
  - discriminate Hrefused.
  - subst s1.
    destruct (Hfailure "recommendations service returned status 500"%string
                eq_refl)
      as (Hr & Hs' & _ & Hstamp & Hopens & _).
    destruct Hopens as [Hopen Hspent]; [left; reflexivity |].
    repeat split; assumption.
Defined.

Lemma GetState_reads_only_witness :
  GetState Demo.probing = ("HALF-OPEN"%string, Demo.probing).
Proof.
  exact (proj1 (GetState_reads_only Demo.probing)).
Defined.

Lemma captured_state_never_open_witness :
  Execute_finish Demo.now Demo.Errorf StateHalfOpen (Demo.failing Second) =
    bind (call (Demo.failing Second)) (Execute_record Demo.now) /\
  invocations (exec (Demo.Execute (Demo.failing Second)) Demo.cooled) = 4%nat.
Proof.
  destruct (captured_state_never_open Demo.now Demo.Errorf
              (Demo.failing Second) Demo.cooled) as (Hcaptured & _ & _).
  destruct (Hcaptured StateHalfOpen) as (_ & _ & Hfinish & Hn).
  - by_evaluation.
  - split; [exact Hfinish | exact Hn].
Defined.

(** C6 does not hold as stated.  At start-up the breaker trips after three
    failed calls; eleven seconds later a probe succeeds, which leaves it in
    [StateHalfOpen] with [successCount] 1; the next probe fails, and the
    breaker is back in [StateOpen] with [successCount] still 1, not 0. *)
Lemma reopen_keeps_successCount :
  state (breaker Demo.probing) = StateHalfOpen /\
  successCount (breaker Demo.probing) = 1 /\
  eval (Demo.Execute (Demo.failing Second)) Demo.probing <> None /\
  state (breaker (exec (Demo.Execute (Demo.failing Second)) Demo.probing)) =
    StateOpen /\
  successCount
    (breaker (exec (Demo.Execute (Demo.failing Second)) Demo.probing)) <> 0.
Proof. by_evaluation. Qed.

Lemma successCount_reset_on_close_and_entry_witness :
  successCount (breaker Demo.reopened) = successCount (breaker Demo.probing) /\
  successCount (breaker (exec (Execute_enter Demo.now) Demo.cooled)) = 0.
Proof.
  destruct (successCount_reset_on_close_and_entry Demo.now Demo.Errorf
              (Demo.failing Second) Demo.probing) as [Hleave _].
  destruct (successCount_reset_on_close_and_entry Demo.now Demo.Errorf
              (Demo.failing Second) Demo.cooled) as [_ Henter].
  destruct Hleave as [_ Hopen]; [reflexivity |].
  destruct Hopen as [_ Hkept]; [reflexivity |].
  split; [exact Hkept |].
  apply Henter; reflexivity.
Defined.

(** * Further properties of the breaker *)

Section BreakerMore.

Context {World : Type} {error : Type}.
Context (now : World -> Time).
Context (Errorf : string -> error).

Implicit Types (s : Sys World) (fn : Operation World error).

(** ** The whole system after a recorded failure *)

Lemma recordFailure_HalfOpen_sys s :
  state (breaker s) = StateHalfOpen ->
  exec (recordFailure now) s =
    mkSys (set_failureCount 0
             (set_state StateOpen
                (set_lastFailureTime (now (world s)) (breaker s))))
      (world s) (invocations s) (logged s ++ [LogProbeFailed]).
Proof.
  destruct s as [[st fc sc lt mf tmo hto] w n l]; simpl.
  intros ->. reflexivity.
Qed.

Lemma recordFailure_below_sys s :
  state (breaker s) <> StateHalfOpen ->
  GoInt.incr (failureCount (breaker s)) < maxFailures (breaker s) ->
  exec (recordFailure now) s =
    mkSys (set_lastFailureTime (now (world s))
             (set_failureCount (GoInt.incr (failureCount (breaker s)))
                (breaker s)))
      (world s) (invocations s) (logged s).
Proof.
  destruct s as [[st fc sc lt mf tmo hto] w n l]; simpl.
  intros Hst Hlt.
  unfold exec, recordFailure, bind, modifyCB, timeNow, getCB; simpl.
  destruct st; try congruence; simpl.
  all: destruct (Z.geb_spec (GoInt.incr fc) mf); [lia | reflexivity].
Qed.

Lemma recordFailure_trip_sys s :
  state (breaker s) <> StateHalfOpen ->
  maxFailures (breaker s) <= GoInt.incr (failureCount (breaker s)) ->
  exec (recordFailure now) s =
    mkSys (set_failureCount 0
             (set_state StateOpen
                (set_lastFailureTime (now (world s)) (breaker s))))
      (world s) (invocations s)
      (logged s ++ [LogThreshold (maxFailures (breaker s))]).
Proof.
  destruct s as [[st fc sc lt mf tmo hto] w n l]; simpl.
  intros Hst Hge.
  unfold exec, recordFailure, bind, modifyCB, timeNow, getCB; simpl.
  destruct st; try congruence; simpl.
  all: destruct (Z.geb_spec (GoInt.incr fc) mf); [reflexivity | lia].
Qed.

(** A refused call, as one equation. *)
Lemma Execute_refuse fn s :
  state (breaker s) = StateOpen ->
  Sub (now (world s)) (lastFailureTime (breaker s)) <= timeout (breaker s) ->
  Execute now Errorf fn s = (Some (Errorf openMessage), s).
Proof.
  intros Hopen Hle. unfold Execute, bind.
  rewrite (Execute_enter_refuse now s Hopen Hle). reflexivity.
Qed.

(** Every call is either refused or let through; [s1] is the system the
    first critical section leaves to a call that is let through. *)
Lemma Execute_shape fn s :
  (state (breaker s) = StateOpen /\
   Sub (now (world s)) (lastFailureTime (breaker s)) <= timeout (breaker s) /\
   Execute now Errorf fn s = (Some (Errorf openMessage), s)) \/
  (exists s1 : Sys World,
     (s1 = s \/
      state (breaker s) = StateOpen /\
      timeout (breaker s) <
        Sub (now (world s)) (lastFailureTime (breaker s)) /\
      s1 = mkSys (set_successCount 0 (set_state StateHalfOpen (breaker s)))
             (world s) (invocations s) (logged s ++ [LogToHalfOpen])) /\
     state (breaker s1) <> StateOpen /\
     eval (Execute now Errorf fn) s = fst (fn (world s)) /\
     exec (Execute now Errorf fn) s =
       match fst (fn (world s)) with
       | Some _ => exec (recordFailure now) (exec (call fn) s1)
       | None => exec recordSuccess (exec (call fn) s1)
       end).
Proof.
  assert (Hrecord : forall st s1,
            Execute_enter now s = (Some st, s1) ->
            st <> StateOpen -> world s1 = world s ->
            invocations s1 = invocations s ->
            eval (Execute now Errorf fn) s = fst (fn (world s)) /\
            exec (Execute now Errorf fn) s =
              match fst (fn (world s)) with
              | Some _ => exec (recordFailure now) (exec (call fn) s1)
              | None => exec recordSuccess (exec (call fn) s1)
              end).
  { intros st s1 Henter Hst Hw Hn.
    destruct (Execute_forward_frame now Errorf fn s st s1 Henter Hst Hw Hn)
      as (Hr & _ & _).
    split; [exact Hr |].
    unfold exec at 1.
    rewrite (Execute_forward now Errorf fn s st s1 Henter Hst), Hw.
    destruct (fst (fn (world s))) as [e |].
    - apply Execute_record_failure.
    - apply Execute_record_success. }
  destruct (Execute_enter_cases now s)
    as [[Hst Henter] | [(Hopen & Hle & Henter) | (Hopen & Hgt & Henter)]].
  - right. exists s. split; [left; reflexivity |]. split; [exact Hst |].
    apply (Hrecord _ _ Henter Hst); reflexivity.
  - left. auto using Execute_refuse.
  - right. eexists. split; [right; split; [exact Hopen | split; [exact Hgt |]];
                            reflexivity |].
    split; [simpl; discriminate |].
    apply (Hrecord _ _ Henter); [discriminate | reflexivity | reflexivity].
Qed.

(** ** Invariants of runs *)

(** X1. From a breaker whose fields are consistent, as those of a new
    breaker are, the fields are consistent after every call of every run:
    the failure count stays below the threshold and is 0 outside
    [StateClosed], the success count is 0 or 1, and no counter wraps. *)
Theorem consistent_after_every_call (fns : list (Operation World error)) :
  forall s,
    consistent (breaker s) ->
    Forall (fun r => consistent (breaker (snd r))) (history now Errorf fns s).
Proof.
  induction fns as [| fn fns IH]; intros s Hcons; simpl.
  - constructor.
  - pose proof (Execute_consistent now Errorf fn s Hcons) as Hnext.
    constructor; [exact Hnext | apply IH; exact Hnext].
Qed.

(** X2. No run of calls changes the configuration: [maxFailures],
    [timeout] and [halfOpenTimeout] are after the run what they were
    before. *)
Theorem configuration_never_changes (fns : list (Operation World error)) :
  forall s,
    same_configuration (breaker s) (breaker (after now Errorf fns s)).
Proof.
  induction fns as [| fn fns IH]; intros s; simpl.
  - repeat split.
  - destruct (Execute_keeps_configuration now Errorf fn s) as (Hmf & Ht & Hh).
    destruct (IH (exec (Execute now Errorf fn) s)) as (Hmf' & Ht' & Hh').
    unfold same_configuration. repeat split; congruence.
Qed.

(** X3. [lastFailureTime] changes only when a failure is recorded: a call
    either leaves it as it was, or has invoked the operation, got an error
    from it, and stamped the clock's reading at that moment.  In particular
    a successful call and a refused call leave it alone. *)
Theorem lastFailureTime_changes_only_on_failure fn s :
  (lastFailureTime (breaker (exec (Execute now Errorf fn) s)) =
     lastFailureTime (breaker s) \/
   exists e : error,
     fst (fn (world s)) = Some e /\
     eval (Execute now Errorf fn) s = Some e /\
     invocations (exec (Execute now Errorf fn) s) = S (invocations s) /\
     lastFailureTime (breaker (exec (Execute now Errorf fn) s)) =
       now (world (exec (Execute now Errorf fn) s))) /\
  (eval (Execute now Errorf fn) s = None ->
   lastFailureTime (breaker (exec (Execute now Errorf fn) s)) =
     lastFailureTime (breaker s)) /\
  (invocations (exec (Execute now Errorf fn) s) = invocations s ->
   lastFailureTime (breaker (exec (Execute now Errorf fn) s)) =
     lastFailureTime (breaker s)).
Proof.
  assert (Hsuccess : forall s1,
            lastFailureTime (breaker (exec recordSuccess s1)) =
            lastFailureTime (breaker s1)).
  { intros [[st fc sc lt mf tmo hto] w n l].
    unfold exec, recordSuccess, bind, modifyCB, getCB; simpl.
    destruct st; simpl; try reflexivity.
    destruct (GoInt.incr sc >=? 2); reflexivity. }
  assert (Hfailure : forall s1,
            lastFailureTime (breaker (exec (recordFailure now) s1)) =
              now (world s1) /\
            world (exec (recordFailure now) s1) = world s1 /\
            invocations (exec (recordFailure now) s1) = invocations s1).
  { intros [[st fc sc lt mf tmo hto] w n l].
    unfold exec, recordFailure, bind, modifyCB, timeNow, getCB; simpl.
    destruct st; simpl; auto.
    all: destruct (GoInt.incr fc >=? mf); simpl; auto. }
  destruct (Execute_shape fn s)
    as [(Hopen & Hle & Heq) | (s1 & Hs1 & Hst & Hr & Hs')].
  - unfold eval, exec. rewrite Heq. simpl.
    split; [left; reflexivity |]. split; reflexivity.
  - assert (Hlt1 : lastFailureTime (breaker s1) = lastFailureTime (breaker s))
      by (destruct Hs1 as [-> | (_ & _ & ->)]; reflexivity).
    assert (Hn1 : invocations s1 = invocations s)
      by (destruct Hs1 as [-> | (_ & _ & ->)]; reflexivity).
    rewrite Hr, Hs'. destruct (fst (fn (world s))) as [e |] eqn:Hout.
    + destruct (Hfailure (exec (call fn) s1)) as (Hstamp & Hw & Hn).
      assert (Hcount : invocations (exec (recordFailure now) (exec (call fn) s1))
                       = S (invocations s)).
      { rewrite Hn. unfold exec. rewrite call_eq. simpl. congruence. }
      split; [| split].
      * right. exists e. rewrite Hw. auto.
      * discriminate.
      * rewrite Hcount. intros Habs. exfalso. apply (n_Sn _ (eq_sym Habs)).
    + rewrite Hsuccess, breaker_after_call.
      split; [left; exact Hlt1 |]. split; intros _; exact Hlt1.
Qed.

(** X4. In [StateOpen] a call is refused, leaving everything as it was,
    exactly when the time elapsed since [lastFailureTime] is at most
    [timeout].  The comparison is strict: at exactly [timeout] the call is
    still refused. *)
Theorem open_refuses_exactly_within_cooldown fn s :
  state (breaker s) = StateOpen ->
  (Execute now Errorf fn s = (Some (Errorf openMessage), s) <->
   Sub (now (world s)) (lastFailureTime (breaker s)) <= timeout (breaker s)) /\
  (Sub (now (world s)) (lastFailureTime (breaker s)) = timeout (breaker s) ->
   Execute now Errorf fn s = (Some (Errorf openMessage), s)).
Proof.
  intros Hopen. split.
  - split.
    + intros Heq.
      destruct (Z_le_gt_dec
                  (Sub (now (world s)) (lastFailureTime (breaker s)))
                  (timeout (breaker s))) as [Hle | Hgt]; [exact Hle |].
      exfalso.
      pose proof (Execute_enter_probe now s Hopen ltac:(lia)) as Henter.
      assert (Hhalf : StateHalfOpen <> StateOpen) by discriminate.
      destruct (Execute_forward_frame now Errorf fn s _ _ Henter Hhalf
                  eq_refl eq_refl) as (_ & _ & Hn).
      unfold exec in Hn. rewrite Heq in Hn. simpl in Hn.
      apply (n_Sn _ Hn).
    + apply Execute_refuse, Hopen.
  - intros Heq. apply Execute_refuse; [exact Hopen | lia].
Qed.

(** X5. One call moves the breaker only along the edges of the state
    machine, and the edge agrees with what the call returned.  From
    [StateClosed] it stays or, on an error, opens.  From [StateOpen] it
    stays or, when the call returned [nil], is left half-open; it never
    closes in one call.  From [StateHalfOpen] an error reopens it and [nil]
    leaves it half-open or closes it. *)
Theorem transitions_follow_the_outcome fn s :
  (state (breaker s) = StateClosed ->
   state (breaker (exec (Execute now Errorf fn) s)) = StateClosed \/
   (state (breaker (exec (Execute now Errorf fn) s)) = StateOpen /\
    eval (Execute now Errorf fn) s <> None)) /\
  (state (breaker s) = StateOpen ->
   state (breaker (exec (Execute now Errorf fn) s)) = StateOpen \/
   (state (breaker (exec (Execute now Errorf fn) s)) = StateHalfOpen /\
    eval (Execute now Errorf fn) s = None)) /\
  (state (breaker s) = StateHalfOpen ->
   (eval (Execute now Errorf fn) s <> None /\
    state (breaker (exec (Execute now Errorf fn) s)) = StateOpen) \/
   (eval (Execute now Errorf fn) s = None /\
    (state (breaker (exec (Execute now Errorf fn) s)) = StateHalfOpen \/
     state (breaker (exec (Execute now Errorf fn) s)) = StateClosed))).
Proof.
  assert (Hfail : forall s1,
            (state (breaker s1) = StateHalfOpen ->
             state (breaker (exec (recordFailure now) s1)) = StateOpen) /\
            (state (breaker s1) = StateClosed ->
             state (breaker (exec (recordFailure now) s1)) = StateClosed \/
             state (breaker (exec (recordFailure now) s1)) = StateOpen)).
  { intros [[st fc sc lt mf tmo hto] w n l].
    unfold exec, recordFailure, bind, modifyCB, timeNow, getCB; simpl.
    split; intros ->; simpl; auto.
    destruct (GoInt.incr fc >=? mf); simpl; auto. }
  assert (Hok : forall s1,
            (state (breaker s1) = StateClosed ->
             state (breaker (exec recordSuccess s1)) = StateClosed) /\
            (state (breaker s1) = StateHalfOpen ->
             state (breaker (exec recordSuccess s1)) = StateHalfOpen \/
             state (breaker (exec recordSuccess s1)) = StateClosed) /\
            (state (breaker s1) = StateHalfOpen ->
             successCount (breaker s1) = 0 ->
             state (breaker (exec recordSuccess s1)) = StateHalfOpen)).
  { intros [[st fc sc lt mf tmo hto] w n l].
    unfold exec, recordSuccess, bind, modifyCB, getCB; simpl.
    split; [| split]; intros ->; simpl; auto.
    - destruct (GoInt.incr sc >=? 2); simpl; auto.
    - intros ->. reflexivity. }
  destruct (Execute_shape fn s)
    as [(Hopen & Hle & Heq) | (s1 & Hs1 & Hst & Hr & Hs')].
  - unfold eval, exec. rewrite Heq. simpl.
    split; [| split]; intros Hstate; try congruence. left. exact Hopen.
  - rewrite Hr, Hs'.
    destruct Hs1 as [-> | (Hopen & Hgt & ->)].
    + destruct (Hfail (exec (call fn) s)) as [Hfhalf Hfclosed].
      destruct (Hok (exec (call fn) s)) as (Hsclosed & Hshalf & _).
      rewrite breaker_after_call in Hfhalf, Hfclosed, Hsclosed, Hshalf.
      split; [| split]; intros Hstate; try contradiction.
      * destruct (fst (fn (world s))) as [e |].
        -- destruct (Hfclosed Hstate) as [Hc | Ho]; [left; exact Hc |].
           right. split; [exact Ho | discriminate].
        -- left. exact (Hsclosed Hstate).
      * destruct (fst (fn (world s))) as [e |].
        -- left. split; [discriminate | exact (Hfhalf Hstate)].
        -- right. split; [reflexivity | exact (Hshalf Hstate)].
    + match goal with
      | |- context [exec (call fn) ?p] =>
          destruct (Hfail (exec (call fn) p)) as [Hfhalf _];
          destruct (Hok (exec (call fn) p)) as (_ & _ & Hsfresh);
          rewrite breaker_after_call in Hfhalf, Hsfresh
      end.
      split; [| split]; intros Hstate; try congruence.
      destruct (fst (fn (world s))) as [e |].
      * left. apply Hfhalf. reflexivity.
      * right. split; [apply Hsfresh; reflexivity | reflexivity].
Qed.

Lemma logged_after_call fn s : logged (exec (call fn) s) = logged s.
Proof. unfold exec. rewrite call_eq. reflexivity. Qed.

(** What the two bookkeeping methods write to the log. *)
Lemma recordFailure_logs s :
  exists lines : list LogLine,
    logged (exec (recordFailure now) s) = logged s ++ lines /\
    (List.length lines <= 1)%nat /\
    (lines = [] ->
     state (breaker (exec (recordFailure now) s)) = state (breaker s)).
Proof.
  destruct s as [[st fc sc lt mf tmo hto] w n l].
  unfold exec, recordFailure, bind, modifyCB, timeNow, getCB; simpl.
  destruct st; simpl.
  3: { exists [LogProbeFailed]. simpl. repeat split; auto. discriminate. }
  all: destruct (GoInt.incr fc >=? mf); simpl;
    [ exists [LogThreshold mf]; simpl; repeat split; auto; discriminate
    | exists []; simpl; rewrite app_nil_r; repeat split; auto ].
Qed.

Lemma recordSuccess_logs s :
  exists lines : list LogLine,
    logged (exec recordSuccess s) = logged s ++ lines /\
    (List.length lines <= 1)%nat /\
    (lines = [] -> state (breaker (exec recordSuccess s)) = state (breaker s)).
Proof.
  destruct s as [[st fc sc lt mf tmo hto] w n l].
  unfold exec, recordSuccess, bind, modifyCB, getCB; simpl.
  destruct st; simpl.
  3: { destruct (GoInt.incr sc >=? 2); simpl;
       [ exists [LogProbesPassed]; simpl; repeat split; auto; discriminate
       | exists []; simpl; rewrite app_nil_r; repeat split; auto ]. }
  all: exists []; simpl; rewrite app_nil_r; repeat split; auto.
Qed.

(** X6. A call only appends to the log, at most two lines, and every change
    of state is logged: a call that writes no line leaves the breaker in
    the state it was in. *)
Theorem transitions_are_logged fn s :
  exists lines : list LogLine,
    logged (exec (Execute now Errorf fn) s) = logged s ++ lines /\
    (List.length lines <= 2)%nat /\
    (lines = [] ->
     state (breaker (exec (Execute now Errorf fn) s)) = state (breaker s)).
Proof.
  assert (Hrecord : forall s1,
            exists lines : list LogLine,
              logged (match fst (fn (world s)) with
                      | Some _ => exec (recordFailure now) (exec (call fn) s1)
                      | None => exec recordSuccess (exec (call fn) s1)
                      end) = logged s1 ++ lines /\
              (List.length lines <= 1)%nat /\
              (lines = [] ->
               state (breaker
                        (match fst (fn (world s)) with
                         | Some _ =>
                             exec (recordFailure now) (exec (call fn) s1)
                         | None => exec recordSuccess (exec (call fn) s1)
                         end)) = state (breaker s1))).
  { intros s1. destruct (fst (fn (world s))) as [e |].
    - destruct (recordFailure_logs (exec (call fn) s1)) as (ls & Hl & Hn & Hs).
      exists ls. rewrite Hl. rewrite breaker_after_call in Hs.
      rewrite logged_after_call. auto.
    - destruct (recordSuccess_logs (exec (call fn) s1)) as (ls & Hl & Hn & Hs).
      exists ls. rewrite Hl. rewrite breaker_after_call in Hs.
      rewrite logged_after_call. auto. }
  destruct (Execute_shape fn s)
    as [(Hopen & Hle & Heq) | (s1 & Hs1 & Hst & Hr & Hs')].
  - exists []. unfold exec. rewrite Heq. simpl. rewrite app_nil_r.
    repeat split; auto.
  - rewrite Hs'. destruct (Hrecord s1) as (ls & Hl & Hn & Hsame).
    destruct Hs1 as [-> | (Hopen & Hgt & ->)].
    + exists ls. repeat split; auto.
    + exists (LogToHalfOpen :: ls). rewrite Hl. simpl.
      rewrite <- app_assoc. simpl.
      repeat split; [lia | discriminate].
Qed.

(** X7. While the breaker is in [StateOpen] and the cool-down has not
    passed, any number of calls, one after the other, change nothing: each
    returns the circuit-open error, no operation is invoked, and the system
    after the run is the system before it. *)
Theorem refused_calls_change_nothing (fns : list (Operation World error)) s :
  state (breaker s) = StateOpen ->
  Sub (now (world s)) (lastFailureTime (breaker s)) <= timeout (breaker s) ->
  after now Errorf fns s = s /\
  Forall (fun r => r = (Some (Errorf openMessage), s))
    (history now Errorf fns s).
Proof.
  intros Hopen Hle.
  induction fns as [| fn fns [IHafter IHall]]; simpl.
  - split; [reflexivity | constructor].
  - unfold exec. rewrite (Execute_refuse fn s Hopen Hle). simpl.
    split; [exact IHafter |].
    constructor; [reflexivity | exact IHall].
Qed.

(** X8. Recovery takes two successful calls.  A call made in [StateOpen]
    after the cool-down that succeeds leaves the breaker in
    [StateHalfOpen] with one success counted, whatever [successCount] was
    before; whatever happens elsewhere in between, the next call is let
    through, and if it succeeds too the breaker is in [StateClosed] with
    both counters 0.  Each of the two calls invokes its operation once. *)
Theorem two_successful_probes_close fn1 fn2 (f : World -> World) s :
  state (breaker s) = StateOpen ->
  timeout (breaker s) < Sub (now (world s)) (lastFailureTime (breaker s)) ->
  fst (fn1 (world s)) = None ->
  fst (fn2 (f (snd (fn1 (world s))))) = None ->
  state (breaker (exec (Execute now Errorf fn1) s)) = StateHalfOpen /\
  successCount (breaker (exec (Execute now Errorf fn1) s)) = 1 /\
  state (breaker (exec (Execute now Errorf fn2)
                    (elsewhere f (exec (Execute now Errorf fn1) s)))) =
    StateClosed /\
  failureCount (breaker (exec (Execute now Errorf fn2)
                           (elsewhere f (exec (Execute now Errorf fn1) s)))) =
    0 /\
  successCount (breaker (exec (Execute now Errorf fn2)
                           (elsewhere f (exec (Execute now Errorf fn1) s)))) =
    0 /\
  invocations (exec (Execute now Errorf fn2)
                 (elsewhere f (exec (Execute now Errorf fn1) s))) =
    S (S (invocations s)).
Proof.
  intros Hopen Hgt Hok1 Hok2.
  pose proof (Execute_enter_probe now s Hopen Hgt) as Henter.
  assert (Hhalf : StateHalfOpen <> StateOpen) by discriminate.
  assert (Hfirst : exec (Execute now Errorf fn1) s =
                   mkSys (set_successCount 1
                            (set_failureCount 0
                               (set_successCount 0
                                  (set_state StateHalfOpen (breaker s)))))
                     (snd (fn1 (world s))) (S (invocations s))
                     (logged s ++ [LogToHalfOpen])).
  { unfold exec at 1.
    rewrite (Execute_forward now Errorf fn1 s _ _ Henter Hhalf). simpl.
    rewrite Hok1.
    fold (exec (Execute_record now (@None error))
            (exec (call fn1)
               (mkSys (set_successCount 0
                         (set_state StateHalfOpen (breaker s)))
                  (world s) (invocations s) (logged s ++ [LogToHalfOpen])))).
    rewrite Execute_record_success.
    rewrite recordSuccess_HalfOpen_below;
      rewrite ?breaker_after_call; simpl; try reflexivity.
    unfold exec. rewrite call_eq. reflexivity. }
  rewrite Hfirst. simpl.
  split; [reflexivity |]. split; [reflexivity |].
  match goal with
  | |- context [exec (Execute now Errorf fn2) ?p] => set (s1 := p)
  end.
  assert (Hst1 : state (breaker s1) <> StateOpen) by (simpl; discriminate).
  assert (Hw1 : fst (fn2 (world s1)) = None) by exact Hok2.
  destruct (Execute_not_open_success now Errorf fn2 s1 Hst1 Hw1) as [_ ->].
  rewrite recordSuccess_HalfOpen_close;
    rewrite ?breaker_after_call; simpl; try reflexivity.
  all: try (vm_compute; discriminate).
  unfold exec. rewrite call_eq. simpl. auto.
Qed.

(** X9. A failed probe starts a new cool-down.  When a call that probes
    (made in [StateHalfOpen], or in [StateOpen] after the cool-down) gets an
    error, the cool-down is counted afresh from the moment the failure was
    recorded: whatever happens elsewhere, a call made no later than
    [timeout] after that moment is refused and changes nothing. *)
Theorem failed_probe_restarts_cooldown fn fn2 (f : World -> World) s
  (e : error) :
  state (breaker s) = StateHalfOpen \/
  (state (breaker s) = StateOpen /\
   timeout (breaker s) <
     Sub (now (world s)) (lastFailureTime (breaker s))) ->
  fst (fn (world s)) = Some e ->
  Sub (now (f (snd (fn (world s))))) (now (snd (fn (world s)))) <=
    timeout (breaker s) ->
  state (breaker (exec (Execute now Errorf fn) s)) = StateOpen /\
  lastFailureTime (breaker (exec (Execute now Errorf fn) s)) =
    now (snd (fn (world s))) /\
  Execute now Errorf fn2 (elsewhere f (exec (Execute now Errorf fn) s)) =
    (Some (Errorf openMessage),
     elsewhere f (exec (Execute now Errorf fn) s)).
Proof.
  intros Hprobe Hfail Hsoon.
  assert (Hreopened :
            breaker (exec (Execute now Errorf fn) s) =
              set_failureCount 0
                (set_state StateOpen
                   (set_lastFailureTime (now (snd (fn (world s))))
                      (set_successCount
                         (match state (breaker s) with
                          | StateOpen => 0
                          | _ => successCount (breaker s)
                          end)
                         (set_state StateHalfOpen (breaker s))))) /\
            world (exec (Execute now Errorf fn) s) = snd (fn (world s))).
  { destruct (Execute_shape fn s)
      as [(Hopen & Hle & Heq) | (s1 & Hs1 & Hst & Hr & Hs')].
    - destruct Hprobe as [Hhalf | [_ Hgt]]; [congruence | lia].
    - rewrite Hs', Hfail.
      destruct (recordFailure_frame now (exec (call fn) s1)) as [Hw _].
      rewrite Hw, world_after_call.
      destruct Hs1 as [-> | (Hopen & Hgt & ->)].
      + destruct Hprobe as [Hhalf | [Hopen _]]; [| contradiction].
        rewrite recordFailure_HalfOpen
          by (rewrite breaker_after_call; exact Hhalf).
        rewrite breaker_after_call, world_after_call, Hhalf.
        split; [| reflexivity].
        destruct (breaker s) as [st fc sc lt mf tmo hto]; simpl in *.
        subst st. reflexivity.
      + rewrite recordFailure_HalfOpen
          by (rewrite breaker_after_call; reflexivity).
        rewrite breaker_after_call, world_after_call, Hopen.
        split; reflexivity. }
  destruct Hreopened as [Hcb Hw].
  split; [rewrite Hcb; reflexivity |].
  split; [rewrite Hcb; reflexivity |].
  apply Execute_refuse.
  - simpl. rewrite Hcb. reflexivity.
  - simpl. rewrite Hcb, Hw. simpl. exact Hsoon.
Qed.

(** X10. [halfOpenTimeout] is configured but never read: a call returns the
    same result and has the same effect whatever value the field holds. *)
Theorem halfOpenTimeout_is_never_read (v : Duration) fn s :
  Execute now Errorf fn
    (mkSys (set_halfOpenTimeout v (breaker s)) (world s) (invocations s)
       (logged s)) =
  (eval (Execute now Errorf fn) s,
   mkSys (set_halfOpenTimeout v (breaker (exec (Execute now Errorf fn) s)))
     (world (exec (Execute now Errorf fn) s))
     (invocations (exec (Execute now Errorf fn) s))
     (logged (exec (Execute now Errorf fn) s))).
Proof.
  destruct s as [[st fc sc lt mf tmo hto] w n l].
  unfold eval, exec, Execute, Execute_enter, Execute_finish, Execute_record,
    recordFailure, recordSuccess, timeSince, timeNow, bind, ret, getCB,
    modifyCB, logPrintln, call, set_halfOpenTimeout; simpl.
  destruct st; simpl.
  - destruct (fn w) as [[e |] w']; simpl; [| reflexivity].
    destruct (GoInt.incr fc >=? mf); reflexivity.
  - destruct (Sub (now w) lt >? tmo); simpl; [| reflexivity].
    destruct (fn w) as [[e |] w']; simpl; reflexivity.
  - destruct (fn w) as [[e |] w']; simpl; [reflexivity |].
    destruct (GoInt.incr sc >=? 2); reflexivity.
Qed.

End BreakerMore.

(** * Properties of the gateway *)

Section GatewayFacts.

Context {Net : Type} {error : Type} {float64 : Type} {Body : Type}.
Context (now : Net -> Time).
Context (Errorf : string -> error).
Context (httpGet : string -> Net -> (Response Body + error) * Net).
Context (closeBody : Response Body -> Net -> Net).
Context (decodeProduct :
           Response Body -> Net -> (Product float64 + error) * Net).
Context (decodeProducts :
           Response Body -> Net -> (Products float64 + error) * Net).
Context (formatRFC3339 : Time -> string).

Local Abbreviation World := (GatewayWorld Net error float64).
Local Abbreviation handler :=
  (productDetailsHandler now Errorf httpGet closeBody decodeProduct
     decodeProducts formatRFC3339).
Local Abbreviation fetchProduct :=
  (getProductDetails Errorf httpGet closeBody decodeProduct).
Local Abbreviation fetchRecommendations :=
  (getRecommendations Errorf httpGet closeBody decodeProducts).
Local Abbreviation protected id :=
  (Execute (gatewayNow now) Errorf
     (recommendationsCall Errorf httpGet closeBody decodeProducts id)).
Local Abbreviation idOf urlPath :=
  (TrimSpace (TrimPrefix urlPath "/product-details/")).

Implicit Types (s : Sys World).

(** The system when the handler reaches [Execute]: the product has been
    fetched, which left the network as [n1], and [recommendations] is
    [nil]. *)
Local Abbreviation atExecute s n1 :=
  (mkSys (breaker s) (mkGatewayWorld n1 None (gatewayLog (world s)))
     (invocations s) (logged s)).

(** The handler when the product is found, in terms of what the protected
    call returns and leaves. *)
Lemma handler_product_found urlPath s (product : Product float64) n1 :
  idOf urlPath <> ""%string ->
  fetchProduct (idOf urlPath) (net (world s)) = (inl product, n1) ->
  handler urlPath s =
    let r := protected (idOf urlPath) (atExecute s n1) in
    let s2 := snd r in
    let circuit := State_String (state (breaker s2)) in
    let t := now (net (world s2)) in
    let d := Sub t (now (net (world s))) in
    match fst r with
    | Some e =>
        (json_reply
           (DetailsJSON
              (mkProductDetails product getFallbackRecommendations
                 (formatRFC3339 t) true)),
         mkSys (breaker s2)
           (mkGatewayWorld (net (world s2)) getFallbackRecommendations
              (gatewayLog (world s2) ++
               [LogFallback circuit e; LogCompleted d true circuit]))
           (invocations s2) (logged s2))
    | None =>
        (json_reply
           (DetailsJSON
              (mkProductDetails product (recommendationsVar (world s2))
                 (formatRFC3339 t) false)),
         mkSys (breaker s2)
           (mkGatewayWorld (net (world s2)) (recommendationsVar (world s2))
              (gatewayLog (world s2) ++ [LogCompleted d false circuit]))
           (invocations s2) (logged s2))
    end.
Proof.
  intros Hid Hget.
  unfold productDetailsHandler, bind, timeNow.
  apply String.eqb_neq in Hid. rewrite Hid.
  unfold onNet. rewrite Hget. unfold setRecommendations. simpl.
  destruct (Execute _ _ _ _) as [[e |] s2]; simpl.
  - rewrite <- app_assoc. reflexivity.
  - reflexivity.
Qed.

(** X11. A request whose path holds no product id is answered with status
    400 and the text "Product ID required"; no service is contacted, the
    breaker is not consulted, and nothing is logged: the system is left as
    it was. *)
Theorem handler_rejects_empty_id urlPath s :
  idOf urlPath = ""%string ->
  handler urlPath s =
    (http_Error "Product ID required" StatusBadRequest, s).
Proof.
  intros Hid. unfold productDetailsHandler, bind, timeNow.
  rewrite Hid. reflexivity.
Qed.

(** X12. When the product cannot be fetched the request fails with status
    500, and the recommendations are not even tried: the breaker and the
    invocation count are untouched, and the network is as the one request
    to the product service left it. *)
Theorem handler_fails_without_product urlPath s (err : error) n1 :
  idOf urlPath <> ""%string ->
  fetchProduct (idOf urlPath) (net (world s)) = (inr err, n1) ->
  handler urlPath s =
    (http_Error "Failed to get product details" StatusInternalServerError,
     mkSys (breaker s)
       (mkGatewayWorld n1 (recommendationsVar (world s))
          (gatewayLog (world s) ++ [LogProductError err]))
       (invocations s) (logged s)).
Proof.
  intros Hid Hget. unfold productDetailsHandler, bind, timeNow.
  apply String.eqb_neq in Hid. rewrite Hid.
  unfold onNet. rewrite Hget. reflexivity.
Qed.

(** X13. Graceful degradation.  Once the product is found the request is
    always answered with status 200 and the product, whatever becomes of
    the recommendations.  The answer is marked degraded exactly when the
    protected call returned an error (the operation's or the breaker's
    refusal), and then it carries the empty list; otherwise it carries the
    list the call assigned.  The handler makes that one call to [Execute]
    and changes the breaker in no other way. *)
Theorem handler_degrades_gracefully urlPath s (product : Product float64)
  n1 :
  idOf urlPath <> ""%string ->
  fetchProduct (idOf urlPath) (net (world s)) = (inl product, n1) ->
  exists details : ProductDetails float64,
    eval (handler urlPath) s = json_reply (DetailsJSON details) /\
    Status (eval (handler urlPath) s) = StatusOK /\
    DetailsProduct details = product /\
    (DegradedMode details = true <->
     eval (protected (idOf urlPath)) (atExecute s n1) <> None) /\
    (DegradedMode details = true -> Recommendations details = Some []) /\
    (DegradedMode details = false ->
     Recommendations details =
       recommendationsVar
         (world (exec (protected (idOf urlPath)) (atExecute s n1)))) /\
    breaker (exec (handler urlPath) s) =
      breaker (exec (protected (idOf urlPath)) (atExecute s n1)) /\
    invocations (exec (handler urlPath) s) =
      invocations (exec (protected (idOf urlPath)) (atExecute s n1)) /\
    net (world (exec (handler urlPath) s)) =
      net (world (exec (protected (idOf urlPath)) (atExecute s n1))).
Proof.
  intros Hid Hget. unfold eval, exec.
  rewrite (handler_product_found urlPath s product n1 Hid Hget).
  cbv zeta.
  destruct (Execute _ _ _ _) as [[e |] s2]; simpl.
  - eexists. split; [reflexivity |]. simpl.
    repeat split; auto; try discriminate.
  - eexists. split; [reflexivity |]. simpl.
    repeat split; auto; try discriminate; try congruence.
Qed.

(** X14. Fail fast.  While the breaker is in [StateOpen] and the cool-down
    has not passed when the product has been fetched, the request is
    answered at once with status 200, the product, the empty list and the
    degraded mark: the recommendations service is not contacted (the
    network stays as the product request left it), no operation is
    invoked and the breaker is unchanged. *)
Theorem handler_fails_fast_when_open urlPath s (product : Product float64)
  n1 :
  idOf urlPath <> ""%string ->
  fetchProduct (idOf urlPath) (net (world s)) = (inl product, n1) ->
  state (breaker s) = StateOpen ->
  Sub (now n1) (lastFailureTime (breaker s)) <= timeout (breaker s) ->
  handler urlPath s =
    (json_reply
       (DetailsJSON
          (mkProductDetails product (Some []) (formatRFC3339 (now n1))
             true)),
     mkSys (breaker s)
       (mkGatewayWorld n1 (Some [])
          (gatewayLog (world s) ++
           [LogFallback "OPEN" (Errorf openMessage);
            LogCompleted (Sub (now n1) (now (net (world s)))) true "OPEN"]))
       (invocations s) (logged s)).
Proof.
  intros Hid Hget Hopen Hle.
  rewrite (handler_product_found urlPath s product n1 Hid Hget).
  rewrite (Execute_refuse (gatewayNow now) Errorf _ (atExecute s n1))
    by assumption.
  simpl. rewrite Hopen. reflexivity.
Qed.

(** The protected call when the breaker lets it through. *)
Lemma protected_call_let_through (id : string) s n1 :
  state (breaker s) <> StateOpen \/
  timeout (breaker s) < Sub (now n1) (lastFailureTime (breaker s)) ->
  exists s1 : Sys World,
    world s1 = mkGatewayWorld n1 None (gatewayLog (world s)) /\
    invocations s1 = invocations s /\
    eval (protected id) (atExecute s n1) =
      fst (recommendationsCall Errorf httpGet closeBody decodeProducts id
             (world s1)) /\
    exec (protected id) (atExecute s n1) =
      match fst (recommendationsCall Errorf httpGet closeBody
                   decodeProducts id (world s1)) with
      | Some _ =>
          exec (recordFailure (gatewayNow now))
            (exec (call (recommendationsCall Errorf httpGet closeBody
                           decodeProducts id)) s1)
      | None =>
          exec recordSuccess
            (exec (call (recommendationsCall Errorf httpGet closeBody
                           decodeProducts id)) s1)
      end.
Proof.
  intros Hthrough.
  destruct (Execute_shape (gatewayNow now) Errorf
              (recommendationsCall Errorf httpGet closeBody decodeProducts id)
              (atExecute s n1))
    as [(Hopen & Hle & _) | (s1 & Hs1 & _ & Hr & Hs')].
  - simpl in Hopen, Hle. unfold gatewayNow in Hle. simpl in Hle.
    destruct Hthrough as [Hst | Hgt]; [contradiction | lia].
  - exists s1.
    assert (Hw : world s1 = mkGatewayWorld n1 None (gatewayLog (world s)))
      by (destruct Hs1 as [-> | (_ & _ & ->)]; reflexivity).
    assert (Hn : invocations s1 = invocations s)
      by (destruct Hs1 as [-> | (_ & _ & ->)]; reflexivity).
    rewrite Hw. simpl in Hr, Hs'. auto.
Qed.

(** X15. When the product is found, the breaker lets the call through (it
    is not in [StateOpen], or the cool-down has passed) and the
    recommendations service answers, the request is answered with status
    200, the product and exactly the recommendations received, not marked
    degraded; the operation was invoked once and the breaker's failure
    count is 0. *)
Theorem handler_returns_recommendations urlPath s
  (product : Product float64) n1 (recs : Products float64) n2 :
  idOf urlPath <> ""%string ->
  fetchProduct (idOf urlPath) (net (world s)) = (inl product, n1) ->
  state (breaker s) <> StateOpen \/
  timeout (breaker s) < Sub (now n1) (lastFailureTime (breaker s)) ->
  fetchRecommendations (idOf urlPath) n1 = (inl recs, n2) ->
  eval (handler urlPath) s =
    json_reply
      (DetailsJSON
         (mkProductDetails product recs (formatRFC3339 (now n2)) false)) /\
  net (world (exec (handler urlPath) s)) = n2 /\
  invocations (exec (handler urlPath) s) = S (invocations s) /\
  failureCount (breaker (exec (handler urlPath) s)) = 0.
Proof.
  intros Hid Hget Hthrough Hrecs.
  assert (Hzero : forall s1 : Sys World,
            failureCount (breaker (exec recordSuccess s1)) = 0).
  { intros [[st fc sc lt mf tmo hto] w n l].
    unfold exec, recordSuccess, bind, modifyCB, getCB; simpl.
    destruct st; simpl; try reflexivity.
    destruct (GoInt.incr sc >=? 2); reflexivity. }
  destruct (protected_call_let_through (idOf urlPath) s n1 Hthrough)
    as (s1 & Hw & Hn & Hr & Hs').
  assert (Hcall : recommendationsCall Errorf httpGet closeBody decodeProducts
                    (idOf urlPath) (world s1) =
                  (None, mkGatewayWorld n2 recs (gatewayLog (world s)))).
  { rewrite Hw. unfold recommendationsCall. simpl. rewrite Hrecs.
    reflexivity. }
  rewrite Hcall in Hr, Hs'. simpl in Hr, Hs'.
  set (s2 := exec (call (recommendationsCall Errorf httpGet closeBody
                           decodeProducts (idOf urlPath))) s1) in *.
  assert (Hw2 : world s2 = mkGatewayWorld n2 recs (gatewayLog (world s)))
    by (unfold s2; rewrite world_after_call, Hcall; reflexivity).
  assert (Hn2 : invocations s2 = S (invocations s))
    by (unfold s2, exec; rewrite call_eq; simpl; congruence).
  destruct (recordSuccess_frame s2) as [Hworld Hcount].
  rewrite Hw2 in Hworld. rewrite Hn2 in Hcount.
  pose proof (Hzero s2) as Hfc.
  unfold eval in Hr. unfold exec at 1 in Hs'.
  unfold eval. unfold exec at 1 2 3.
  rewrite (handler_product_found urlPath s product n1 Hid Hget).
  cbv zeta.
  destruct (Execute _ _ _ (atExecute s n1)) as [r sx].
  simpl in Hr, Hs'. subst r sx. simpl.
  rewrite Hworld. simpl. auto.
Qed.

(** X16. When the product is found, the breaker lets the call through and
    the recommendations cannot be fetched, the request is still answered
    with status 200, the product and the empty list, marked degraded; the
    error is not shown to the client but is recorded by the breaker, whose
    [lastFailureTime] is the clock's reading when the attempt ended. *)
Theorem handler_hides_failed_recommendations urlPath s
  (product : Product float64) n1 (err : error) n2 :
  idOf urlPath <> ""%string ->
  fetchProduct (idOf urlPath) (net (world s)) = (inl product, n1) ->
  state (breaker s) <> StateOpen \/
  timeout (breaker s) < Sub (now n1) (lastFailureTime (breaker s)) ->
  fetchRecommendations (idOf urlPath) n1 = (inr err, n2) ->
  eval (handler urlPath) s =
    json_reply
      (DetailsJSON
         (mkProductDetails product (Some []) (formatRFC3339 (now n2))
            true)) /\
  net (world (exec (handler urlPath) s)) = n2 /\
  invocations (exec (handler urlPath) s) = S (invocations s) /\
  lastFailureTime (breaker (exec (handler urlPath) s)) = now n2 /\
  In (LogFallback
        (State_String (state (breaker (exec (handler urlPath) s)))) err)
    (gatewayLog (world (exec (handler urlPath) s))).
Proof.
  intros Hid Hget Hthrough Hrecs.
  assert (Hstamp : forall s1 : Sys World,
            lastFailureTime (breaker (exec (recordFailure (gatewayNow now)) s1))
            = now (net (world s1))).
  { intros [[st fc sc lt mf tmo hto] w n l].
    unfold exec, recordFailure, bind, modifyCB, timeNow, getCB; simpl.
    destruct st; simpl; auto.
    all: destruct (GoInt.incr fc >=? mf); reflexivity. }
  destruct (protected_call_let_through (idOf urlPath) s n1 Hthrough)
    as (s1 & Hw & Hn & Hr & Hs').
  assert (Hcall : recommendationsCall Errorf httpGet closeBody decodeProducts
                    (idOf urlPath) (world s1) =
                  (Some err, mkGatewayWorld n2 None (gatewayLog (world s)))).
  { rewrite Hw. unfold recommendationsCall. simpl. rewrite Hrecs.
    reflexivity. }
  rewrite Hcall in Hr, Hs'. simpl in Hr, Hs'.
  set (s2 := exec (call (recommendationsCall Errorf httpGet closeBody
                           decodeProducts (idOf urlPath))) s1) in *.
  assert (Hw2 : world s2 = mkGatewayWorld n2 None (gatewayLog (world s)))
    by (unfold s2; rewrite world_after_call, Hcall; reflexivity).
  assert (Hn2 : invocations s2 = S (invocations s))
    by (unfold s2, exec; rewrite call_eq; simpl; congruence).
  destruct (recordFailure_frame (gatewayNow now) s2) as [Hworld Hcount].
  rewrite Hw2 in Hworld. rewrite Hn2 in Hcount.
  pose proof (Hstamp s2) as Hlft. rewrite Hw2 in Hlft. simpl in Hlft.
  unfold eval in Hr. unfold exec at 1 in Hs'.
  unfold eval. unfold exec at 1 2 3 4 5.
  rewrite (handler_product_found urlPath s product n1 Hid Hget).
  cbv zeta.
  destruct (Execute _ _ _ (atExecute s n1)) as [r sx].
  simpl in Hr, Hs'. subst r sx. simpl.
  rewrite Hworld. simpl.
  repeat split; auto.
  apply in_or_app. right. left. reflexivity.
Qed.

(** X17. What the breaker buys.  Take the same request on the same
    network, with the product found and the request to the recommendations
    service failing.  The gateway without the breaker answers with status
    500 and the text "Failed to get recommendations"; the gateway with the
    breaker, when the breaker lets the call through, answers with status
    200, the product, the empty list and the degraded mark. *)
Theorem breaker_turns_failure_into_degradation
  (readAll : Response Body -> Net -> string * Net)
  urlPath s (w : V1.World Net error) (product : Product float64) n1
  (err : error) n2 :
  V1.net w = net (world s) ->
  idOf urlPath <> ""%string ->
  fetchProduct (idOf urlPath) (net (world s)) = (inl product, n1) ->
  httpGet
    (recommendationsServiceURL ++ "/recommendations/" ++ idOf urlPath) n1 =
    (inr err, n2) ->
  state (breaker s) <> StateOpen \/
  timeout (breaker s) < Sub (now n1) (lastFailureTime (breaker s)) ->
  V1.productDetailsHandler now Errorf httpGet closeBody decodeProduct
    decodeProducts readAll formatRFC3339 urlPath w =
    (V1.http_Error "Failed to get recommendations"
       StatusInternalServerError,
     V1.mkWorld n2 (V1.log w ++ [V1.LogRecommendationsError err])) /\
  eval (handler urlPath) s =
    json_reply
      (DetailsJSON
         (mkProductDetails product (Some []) (formatRFC3339 (now n2))
            true)) /\
  net (world (exec (handler urlPath) s)) = n2.
Proof.
  intros Hnet Hid Hget Hdown Hthrough.
  split.
  - unfold V1.productDetailsHandler.
    pose proof Hid as Hneq. apply String.eqb_neq in Hneq. rewrite Hneq.
    rewrite Hnet, Hget.
    unfold V1.getRecommendations. rewrite Hdown. reflexivity.
  - assert (Hrecs : fetchRecommendations (idOf urlPath) n1 = (inr err, n2)).
    { unfold getRecommendations. rewrite Hdown. reflexivity. }
    destruct (protected_call_let_through (idOf urlPath) s n1 Hthrough)
      as (s1 & Hw & Hn & Hr & Hs').
    assert (Hcall : recommendationsCall Errorf httpGet closeBody
                      decodeProducts (idOf urlPath) (world s1) =
                    (Some err,
                     mkGatewayWorld n2 None (gatewayLog (world s)))).
    { rewrite Hw. unfold recommendationsCall. simpl. rewrite Hrecs.
      reflexivity. }
    rewrite Hcall in Hr, Hs'. simpl in Hr, Hs'.
    set (s2 := exec (call (recommendationsCall Errorf httpGet closeBody
                             decodeProducts (idOf urlPath))) s1) in *.
    assert (Hw2 : world s2 = mkGatewayWorld n2 None (gatewayLog (world s)))
      by (unfold s2; rewrite world_after_call, Hcall; reflexivity).
    destruct (recordFailure_frame (gatewayNow now) s2) as [Hworld _].
    rewrite Hw2 in Hworld.
    unfold eval in Hr. unfold exec at 1 in Hs'.
    unfold eval. unfold exec at 1.
    rewrite (handler_product_found urlPath s product n1 Hid Hget).
    cbv zeta.
    destruct (Execute _ _ _ (atExecute s n1)) as [r sx].
    simpl in Hr, Hs'. subst r sx. simpl.
    rewrite Hworld. simpl. auto.
Qed.

End GatewayFacts.

(** ** The further properties at work *)

Lemma consistent_after_every_call_witness :
  Forall (fun r => consistent (breaker (snd r)))
    (Demo.history
       [Demo.failing Second; Demo.failing Second; Demo.failing Second;
        Demo.succeeding Second]
       (Demo.boot 1000)).
Proof.
  apply (consistent_after_every_call Demo.now Demo.Errorf).
  exact NewCircuitBreaker_consistent.
Defined.

Lemma lastFailureTime_changes_only_on_failure_witness :
  lastFailureTime
    (breaker (exec (Demo.Execute (Demo.succeeding Second)) Demo.probing)) =
  lastFailureTime (breaker Demo.probing).
Proof.
  destruct (lastFailureTime_changes_only_on_failure Demo.now Demo.Errorf
              (Demo.succeeding Second) Demo.probing) as (_ & Hnil & _).
  apply Hnil. reflexivity.
Defined.

Lemma open_refuses_exactly_within_cooldown_witness :
  Sub (Demo.now (world (Demo.sleep (10 * Second) Demo.tripped)))
    (lastFailureTime (breaker Demo.tripped)) = 10 * Second /\
  Demo.Execute (Demo.succeeding Second)
    (Demo.sleep (10 * Second) Demo.tripped) =
    (Some (Demo.Errorf openMessage), Demo.sleep (10 * Second) Demo.tripped).
Proof.
  split; [reflexivity |].
  apply (open_refuses_exactly_within_cooldown Demo.now Demo.Errorf
           (Demo.succeeding Second) (Demo.sleep (10 * Second) Demo.tripped)).
  - reflexivity.
  - reflexivity.
Defined.

Lemma transitions_follow_the_outcome_witness :
  state (breaker (exec (Demo.Execute (Demo.failing Second)) Demo.cooled)) =
    StateOpen \/
  (state (breaker (exec (Demo.Execute (Demo.failing Second)) Demo.cooled)) =
     StateHalfOpen /\
   eval (Demo.Execute (Demo.failing Second)) Demo.cooled = None).
Proof.
  destruct (transitions_follow_the_outcome Demo.now Demo.Errorf
              (Demo.failing Second) Demo.cooled) as (_ & Hopen & _).
  apply Hopen. reflexivity.
Defined.

Lemma refused_calls_change_nothing_witness :
  Demo.after
    [Demo.succeeding Second; Demo.failing Second; Demo.succeeding Second]
    Demo.cooling = Demo.cooling.
Proof.
  apply (refused_calls_change_nothing Demo.now Demo.Errorf
           [Demo.succeeding Second; Demo.failing Second;
            Demo.succeeding Second] Demo.cooling).
  - reflexivity.
  - by_evaluation.
Defined.

Lemma two_successful_probes_close_witness :
  state (breaker (exec (Demo.Execute (Demo.succeeding Second))
                    (Demo.sleep Second Demo.probing))) = StateClosed /\
  invocations (exec (Demo.Execute (Demo.succeeding Second))
                 (Demo.sleep Second Demo.probing)) = 5%nat.
Proof.
  destruct (two_successful_probes_close Demo.now Demo.Errorf
              (Demo.succeeding Second) (Demo.succeeding Second)
              (fun w => w + Second) Demo.cooled)
    as (_ & _ & Hclosed & _ & _ & Hn).
  - reflexivity.
  - by_evaluation.
  - reflexivity.
  - reflexivity.
  - split; [exact Hclosed | exact Hn].
Defined.

Lemma failed_probe_restarts_cooldown_witness :
  Demo.Execute (Demo.succeeding Second) (Demo.sleep (5 * Second) Demo.reopened)
  = (Some (Demo.Errorf openMessage), Demo.sleep (5 * Second) Demo.reopened).
Proof.
  apply (failed_probe_restarts_cooldown Demo.now Demo.Errorf
           (Demo.failing Second) (Demo.succeeding Second)
           (fun w => w + 5 * Second) Demo.probing
           "recommendations service returned status 500"%string).
  - left. reflexivity.
  - reflexivity.
  - by_evaluation.
Defined.

Lemma handler_rejects_empty_id_witness :
  GatewayDemo.handler
    ("/product-details/ " ++ String "009"%char EmptyString)
    (GatewayDemo.boot true) =
  (http_Error "Product ID required" StatusBadRequest, GatewayDemo.boot true).
Proof.
  apply (handler_rejects_empty_id GatewayDemo.now GatewayDemo.Errorf
           GatewayDemo.httpGet GatewayDemo.closeBody
           GatewayDemo.decodeProduct GatewayDemo.decodeProducts
           GatewayDemo.formatRFC3339).
  reflexivity.
Defined.

Lemma handler_fails_without_product_witness :
  Status (eval (GatewayDemo.handler "/product-details/1") GatewayDemo.blind) =
    StatusInternalServerError /\
  breaker (exec (GatewayDemo.handler "/product-details/1") GatewayDemo.blind) =
    NewCircuitBreaker /\
  GatewayDemo.requested
    (net (world (exec (GatewayDemo.handler "/product-details/1")
                   GatewayDemo.blind))) =
    ["http://product-service:8081/product/1"%string].
Proof.
  pose proof (handler_fails_without_product GatewayDemo.now
                GatewayDemo.Errorf GatewayDemo.httpGet GatewayDemo.closeBody
                GatewayDemo.decodeProduct GatewayDemo.decodeProducts
                GatewayDemo.formatRFC3339 "/product-details/1"
                GatewayDemo.blind "context deadline exceeded"%string
                (GatewayDemo.mkNet (1000 + 2 * Second) false true
                   ["http://product-service:8081/product/1"%string]))
    as Hreply.
  unfold eval, exec. unfold GatewayDemo.handler. rewrite Hreply.
  - repeat split.
  - vm_compute. discriminate.
  - reflexivity.
Defined.

Lemma handler_degrades_gracefully_witness :
  Status (eval (GatewayDemo.handler "/product-details/1")
            (GatewayDemo.boot false)) = StatusOK.
Proof.
  destruct (handler_degrades_gracefully GatewayDemo.now GatewayDemo.Errorf
              GatewayDemo.httpGet GatewayDemo.closeBody
              GatewayDemo.decodeProduct GatewayDemo.decodeProducts
              GatewayDemo.formatRFC3339 "/product-details/1"
              (GatewayDemo.boot false) GatewayDemo.laptop
              (GatewayDemo.mkNet (1000 + 5000000) true false
                 ["http://product-service:8081/product/1"%string]))
    as (details & _ & Hstatus & _).
  - vm_compute. discriminate.
  - reflexivity.
  - exact Hstatus.
Defined.

Lemma handler_fails_fast_when_open_witness :
  Status (eval (GatewayDemo.handler "/product-details/1")
            GatewayDemo.tripped) = StatusOK /\
  invocations (exec (GatewayDemo.handler "/product-details/1")
                 GatewayDemo.tripped) = 3%nat /\
  GatewayDemo.requested
    (net (world (exec (GatewayDemo.handler "/product-details/1")
                   GatewayDemo.tripped))) =
    GatewayDemo.requested (net (world GatewayDemo.tripped)) ++
    ["http://product-service:8081/product/1"%string].
Proof.
  pose proof (handler_fails_fast_when_open GatewayDemo.now
                GatewayDemo.Errorf GatewayDemo.httpGet GatewayDemo.closeBody
                GatewayDemo.decodeProduct GatewayDemo.decodeProducts
                GatewayDemo.formatRFC3339 "/product-details/1"
                GatewayDemo.tripped GatewayDemo.laptop
                (snd (GatewayDemo.httpGet
                        "http://product-service:8081/product/1"
                        (net (world GatewayDemo.tripped)))))
    as Hreply.
  unfold eval, exec. unfold GatewayDemo.handler. rewrite Hreply.
  - repeat split.
  - vm_compute. discriminate.
  - reflexivity.
  - reflexivity.
  - by_evaluation.
Defined.

Lemma handler_returns_recommendations_witness :
  eval (GatewayDemo.handler "/product-details/1") (GatewayDemo.boot true) =
    json_reply
      (DetailsJSON
         (mkProductDetails GatewayDemo.laptop (Some [GatewayDemo.mouse])
            "10001000" false)).
Proof.
  destruct (handler_returns_recommendations GatewayDemo.now
              GatewayDemo.Errorf GatewayDemo.httpGet GatewayDemo.closeBody
              GatewayDemo.decodeProduct GatewayDemo.decodeProducts
              GatewayDemo.formatRFC3339 "/product-details/1"
              (GatewayDemo.boot true) GatewayDemo.laptop
              (GatewayDemo.mkNet (1000 + 5000000) true true
                 ["http://product-service:8081/product/1"%string])
              (Some [GatewayDemo.mouse])
              (GatewayDemo.mkNet (1000 + 5000000 + 5000000) true true
                 ["http://product-service:8081/product/1"%string;
                  "http://recommendations-service:8082/recommendations/1"%string]))
    as (Hreply & _).
  - vm_compute. discriminate.
  - reflexivity.
  - left. discriminate.
  - reflexivity.
  - exact Hreply.
Defined.

Lemma handler_hides_failed_recommendations_witness :
  Status (eval (GatewayDemo.handler "/product-details/1")
            (GatewayDemo.boot false)) = StatusOK /\
  lastFailureTime
    (breaker (exec (GatewayDemo.handler "/product-details/1")
                (GatewayDemo.boot false))) = 2005001000.
Proof.
  destruct (handler_hides_failed_recommendations GatewayDemo.now
              GatewayDemo.Errorf GatewayDemo.httpGet GatewayDemo.closeBody
              GatewayDemo.decodeProduct GatewayDemo.decodeProducts
              GatewayDemo.formatRFC3339 "/product-details/1"
              (GatewayDemo.boot false) GatewayDemo.laptop
              (GatewayDemo.mkNet (1000 + 5000000) true false
                 ["http://product-service:8081/product/1"%string])
              "context deadline exceeded"%string
              (GatewayDemo.mkNet (1000 + 5000000 + 2 * Second) true false
                 ["http://product-service:8081/product/1"%string;
                  "http://recommendations-service:8082/recommendations/1"%string]))
    as (Hreply & _ & _ & Hstamp & _).
  - vm_compute. discriminate.
  - reflexivity.
  - left. discriminate.
  - reflexivity.
  - split; [exact (f_equal (@Status _) Hreply) | exact Hstamp].
Defined.

Lemma breaker_turns_failure_into_degradation_witness :
  V1.Status (fst (GatewayDemo.handlerV1 "/product-details/1"
                    (GatewayDemo.bootV1 false))) =
    StatusInternalServerError /\
  Status (eval (GatewayDemo.handler "/product-details/1")
            (GatewayDemo.boot false)) = StatusOK.
Proof.
  destruct (breaker_turns_failure_into_degradation GatewayDemo.now
              GatewayDemo.Errorf GatewayDemo.httpGet GatewayDemo.closeBody
              GatewayDemo.decodeProduct GatewayDemo.decodeProducts
              GatewayDemo.formatRFC3339 GatewayDemo.readAll
              "/product-details/1" (GatewayDemo.boot false)
              (GatewayDemo.bootV1 false) GatewayDemo.laptop
              (GatewayDemo.mkNet (1000 + 5000000) true false
                 ["http://product-service:8081/product/1"%string])
              "context deadline exceeded"%string
              (GatewayDemo.mkNet (1000 + 5000000 + 2 * Second) true false
                 ["http://product-service:8081/product/1"%string;
                  "http://recommendations-service:8082/recommendations/1"%string]))
    as (Hv1 & Hv2 & _).
  - reflexivity.
  - vm_compute. discriminate.
  - reflexivity.
  - reflexivity.
  - left. discriminate.
  - split.
    + exact (f_equal (fun r => V1.Status (fst r)) Hv1).
    + exact (f_equal (@Status _) Hv2).
Defined.
